(** * FeedbackAI API server (server.js): store, query engine and statistics

    A shallow embedding of the in-memory feedback store of [server.js] and of
    the request handlers that read and write it, followed by the properties
    of the handlers.

    Conventions of the embedding.
    - The module-level variables [feedback] and [feedbackIdCounter] are the
      two fields of [Store]; every handler is a function from the store to a
      response and the next store.
    - A JavaScript string is a [string].  Nothing here looks into the text
      of a string other than to compare it with another string for
      equality: what the engine and the libraries read from the characters
      ([trim], [toLowerCase], [isLength], [isEmail], the order [>]) is
      taken from them as a parameter ([Validator]).
    - A value of a request body that need not be a string ([status] and
      [priority] in an update) is a [Json].
    - Ids and array indices are [Z]; they stay far below 2^53 (an array
      holds fewer than 2^32 elements), where JavaScript numbers are exact
      integers.  The page number and the page size come from the query
      string and have no bound: the handler computes with them as doubles,
      and so does the model ([Number]).
    - [new Date().toISOString()] is a clock read; the handlers take the
      values read as arguments, in milliseconds since the epoch.  The ISO
      text and [new Date(text)] are inverse to each other at that precision,
      so a timestamp is kept as its millisecond value. *)

From Stdlib Require Import ZArith String Ascii.
From stdpp Require Import base tactics option list strings numbers sorting.

Local Open Scope string_scope.
Local Open Scope list_scope.
Local Open Scope nat_scope.

(** The elements of a list and the components of a pair are read at the
    type the context asks for, so that a string literal can stand for a
    JSON value. *)
Arguments cons {A}%_type & _ _.
Arguments pair {A B}%_type & _ _.

(** ** Data model *)

(** The [type] of a record: [validateFeedback] admits the four names below
    and nothing else, and no handler writes the field after creation. *)
Inductive FeedbackType := bug | feature | improvement | other.

Global Instance FeedbackType_eq_dec : EqDecision FeedbackType.
Proof. solve_decision. Defined.

Definition type_name (t : FeedbackType) : string :=
  match t with
  | bug => "bug"
  | feature => "feature"
  | improvement => "improvement"
  | other => "other"
  end.

Definition type_of_name (s : string) : option FeedbackType :=
  if decide (s = "bug") then Some bug
  else if decide (s = "feature") then Some feature
  else if decide (s = "improvement") then Some improvement
  else if decide (s = "other") then Some other
  else None.

(** A value as [express.json()] hands it over: a string, or a value that
    is not a string (a number, a boolean, [null], an array, an object),
    which is kept as its JSON text.  A string is never equal ([===]) to a
    value of the second kind. *)
Inductive Json :=
  | JString (s : string)
  | JOther (text : string).

Coercion JString : string >-> Json.

Global Instance Json_eq_dec : EqDecision Json.
Proof. solve_decision. Defined.

(** One element of the [feedback] array.  [status] and [priority] are
    whatever value the update handler last copied from a request body. *)
Record Feedback := mkFeedback {
  id : Z;
  title : string;
  description : string;
  type : FeedbackType;
  priority : Json;
  email : string;
  status : Json;
  createdAt : Z;
  updatedAt : Z
}.

Global Instance Feedback_eq_dec : EqDecision Feedback.
Proof. solve_decision. Defined.

(** [let feedback = []; let feedbackIdCounter = 1;] *)
Record Store := mkStore {
  feedback : list Feedback;
  feedbackIdCounter : Z
}.

Definition initialStore : Store := mkStore [] 1.

(** ** What the libraries and the engine provide

    [isEmail], [isLength] and [trimSanitizer] (the [trim()] of a
    validation chain) belong to validator.js, which express-validator
    calls; [trim], [toLowerCase] and the relation [>] belong to the
    engine.  [isLength lo hi s] is [isLength({ min: lo, max: hi })] on
    [s]; [greater x y] is [x > y] on two values of a body.  Nothing is
    assumed of them. *)
Class Validator := {
  isEmail : string → bool;
  isLength : nat → nat → string → bool;
  trimSanitizer : string → string;
  trim : string → string;
  toLowerCase : string → string;
  greater : Json → Json → bool
}.

(** ** Validation middleware *)

(** The body of [POST /api/feedback] with its five fields, each a string.
    What express-validator makes of a field of another kind is not part
    of the model. *)
Record FeedbackBody := mkBody {
  body_title : string;
  body_description : string;
  body_type : string;
  body_priority : string;
  body_email : string
}.

Definition isIn (allowed : list string) (s : string) : bool :=
  bool_decide (s ∈ allowed).

Definition typeNames : list string := ["bug"; "feature"; "improvement"; "other"].
Definition priorityNames : list string := ["low"; "medium"; "high"].
Definition statusNames : list string := ["pending"; "reviewed"; "resolved"].

(** The sanitizers of [validateFeedback]: [trim()] rewrites the field of the
    body that the handler will read. *)
Definition sanitize `{Validator} (b : FeedbackBody) : FeedbackBody :=
  mkBody (trimSanitizer (body_title b)) (trimSanitizer (body_description b))
         (body_type b) (body_priority b) (body_email b).

(** [validationResult(req).array()]: the message of each chain that
    failed, in the order of [validateFeedback]. *)
Definition validationErrors `{Validator} (b : FeedbackBody) : list string :=
  (if isLength 1 200 (body_title b) then [] else ["Title must be 1-200 characters"]) ++
  (if isLength 1 2000 (body_description b) then [] else ["Description must be 1-2000 characters"]) ++
  (if isIn typeNames (body_type b) then [] else ["Invalid feedback type"]) ++
  (if isIn priorityNames (body_priority b) then [] else ["Invalid priority level"]) ++
  (if isEmail (body_email b) then [] else ["Valid email is required"]).

(** ** Responses *)

Inductive Response :=
  | Created (data : Feedback)
  | Updated (data : Feedback)
  | Deleted (data : Feedback)
  | ValidationFailed (errors : list string)
  | NotFound
  | NoValidFields.

Definition statusCode (r : Response) : Z :=
  match r with
  | Created _ => 201
  | Updated _ | Deleted _ => 200
  | ValidationFailed _ | NoValidFields => 400
  | NotFound => 404
  end.

(** ** Store handlers *)

(** [feedback.findIndex(item => item.id === id)] together with the element
    found; [None] is the index -1. *)
Definition findIndex (i : Z) (l : list Feedback) : option (nat * Feedback) :=
  list_find (λ item, id item = i) l.

(** [POST /api/feedback]: [t1] and [t2] are the two clock reads. *)
Definition createFeedback `{Validator} (body : FeedbackBody) (t1 t2 : Z)
    (st : Store) : Response * Store :=
  let body := sanitize body in
  match validationErrors body, type_of_name (body_type body) with
  | [], Some ty =>
      let newFeedback :=
        {| id := feedbackIdCounter st;
           title := trim (body_title body);
           description := trim (body_description body);
           type := ty;
           priority := body_priority body;
           email := trim (toLowerCase (body_email body));
           status := "pending";
           createdAt := t1;
           updatedAt := t2 |} in
      (Created newFeedback,
       mkStore (newFeedback :: feedback st) (feedbackIdCounter st + 1))
  | errors, _ => (ValidationFailed errors, st)
  end.

(** [PUT /api/feedback/:id]. *)
Definition allowedUpdates : list string := ["status"; "priority"].

(** The [updates] object: the entries of the body whose key is allowed,
    with the values as they came. *)
Definition collectUpdates (body : list (string * Json)) : list (string * Json) :=
  filter (λ kv, kv.1 ∈ allowedUpdates) body.

(** One property of [...updates] written over the record. *)
Definition assignField (f : Feedback) (kv : string * Json) : Feedback :=
  if decide (kv.1 = "status") then
    mkFeedback (id f) (title f) (description f) (type f) (priority f)
               (email f) kv.2 (createdAt f) (updatedAt f)
  else if decide (kv.1 = "priority") then
    mkFeedback (id f) (title f) (description f) (type f) kv.2
               (email f) (status f) (createdAt f) (updatedAt f)
  else f.

(** [{ ...old, ...updates, updatedAt: now }] *)
Definition mergeUpdates (old : Feedback) (updates : list (string * Json))
    (now : Z) : Feedback :=
  let f := foldl assignField old updates in
  mkFeedback (id f) (title f) (description f) (type f) (priority f)
             (email f) (status f) (createdAt f) now.

Definition updateFeedback (i : Z) (body : list (string * Json)) (now : Z)
    (st : Store) : Response * Store :=
  match findIndex i (feedback st) with
  | None => (NotFound, st)
  | Some (feedbackIndex, old) =>
      match collectUpdates body with
      | [] => (NoValidFields, st)
      | updates =>
          let new := mergeUpdates old updates now in
          (Updated new,
           mkStore (<[feedbackIndex := new]> (feedback st)) (feedbackIdCounter st))
      end
  end.

(** [DELETE /api/feedback/:id]: [feedback.splice(feedbackIndex, 1)[0]]. *)
Definition deleteFeedback (i : Z) (st : Store) : Response * Store :=
  match findIndex i (feedback st) with
  | None => (NotFound, st)
  | Some (feedbackIndex, old) =>
      (Deleted old, mkStore (delete feedbackIndex (feedback st)) (feedbackIdCounter st))
  end.

(** ** Values and the sort comparator *)

(** What [a[sort]] evaluates to: a number ([id]), a value of a body (the
    text fields, [status], [priority]), the ISO text of a timestamp (kept
    as its millisecond value, [VTime]), or [undefined] for a name that is
    not a property of the record. *)
Inductive Value :=
  | VUndefined
  | VNumber (n : Z)
  | VJson (v : Json)
  | VTime (ms : Z).

Definition getField (a : Feedback) (name : string) : Value :=
  if decide (name = "id") then VNumber (id a)
  else if decide (name = "title") then VJson (title a)
  else if decide (name = "description") then VJson (description a)
  else if decide (name = "type") then VJson (type_name (type a))
  else if decide (name = "priority") then VJson (priority a)
  else if decide (name = "email") then VJson (email a)
  else if decide (name = "status") then VJson (status a)
  else if decide (name = "createdAt") then VTime (createdAt a)
  else if decide (name = "updatedAt") then VTime (updatedAt a)
  else VUndefined.

(** [new Date(v)]: a Date is compared through its time value; the Date of
    anything but a timestamp text is used nowhere in the handlers. *)
Definition toDate (v : Value) : Value :=
  match v with
  | VTime ms => VNumber ms
  | _ => v
  end.

(** [x > y].  Two numbers compare as numbers and two values of a body as
    the engine compares them; [undefined] makes the comparison false.
    Both operands come from one field of two records, so a number, a
    timestamp or [undefined] never meets a value of another kind; two
    timestamps are converted by [toDate] before they are compared. *)
Definition js_gt `{Validator} (x y : Value) : bool :=
  match x, y with
  | VNumber m, VNumber n => (n <? m)%Z
  | VJson v, VJson w => greater v w
  | VTime m, VTime n => (n <? m)%Z
  | _, _ => false
  end.

(** The comparator handed to [filteredFeedback.sort]. *)
Definition compareFeedback `{Validator} (sort order : string) (a b : Feedback) : Z :=
  let aVal := getField a sort in
  let bVal := getField b sort in
  let '(aVal, bVal) :=
    if decide (sort = "createdAt" ∨ sort = "updatedAt")
    then (toDate aVal, toDate bVal) else (aVal, bVal) in
  if decide (order = "desc") then
    (if js_gt bVal aVal then 1 else -1)%Z
  else
    (if js_gt aVal bVal then 1 else -1)%Z.

(** ** [Array.prototype.sort]

    The server runs on Node, whose engine sorts an array of fewer than 64
    elements in two steps: [countAndMakeRun] finds the run the array
    starts with (reversing it when it is strictly descending) and
    [binaryInsertionSort] inserts the remaining elements one by one at the
    position found by bisection.  Longer arrays are cut into such runs,
    which are merged afterwards; the model follows the single-run path at
    every length.  The engine looks at nothing but the sign of what the
    comparator returns. *)
Section ArraySort.
Context {A : Type} (comparefn : A → A → Z).

(** How many more elements continue the run after [previous]. *)
Fixpoint runTail (isDescending : bool) (previous : A) (rest : list A) : nat :=
  match rest with
  | [] => 0
  | current :: rest' =>
      let order := comparefn current previous in
      if isDescending then
        if (order <? 0)%Z then S (runTail isDescending current rest') else 0
      else
        if (order <? 0)%Z then 0 else S (runTail isDescending current rest')
  end.

(** The length of the first run and the array after the run is made
    ascending. *)
Definition countAndMakeRun (work : list A) : nat * list A :=
  match work with
  | [] => (0, work)
  | [_] => (1, work)
  | elementHigh :: elementLow :: rest =>
      let isDescending := (comparefn elementLow elementHigh <? 0)%Z in
      let runLength := 2 + runTail isDescending elementLow rest in
      (runLength,
       if isDescending
       then reverse (take runLength work) ++ drop runLength work
       else work)
  end.

(** The bisection loop: [while (left < right)]. *)
Fixpoint insertionPoint (fuel : nat) (work : list A) (pivot : A)
    (left right : nat) : nat :=
  match fuel with
  | 0 => left
  | S fuel' =>
      if (left <? right)%nat then
        let mid := left + (right - left) / 2 in
        match work !! mid with
        | Some element =>
            if (comparefn pivot element <? 0)%Z
            then insertionPoint fuel' work pivot left mid
            else insertionPoint fuel' work pivot (mid + 1) right
        | None => left
        end
      else left
  end.

(** [count] elements from index [start] on are inserted into the sorted
    prefix before them. *)
Fixpoint binaryInsertionSort (count : nat) (work : list A) (start : nat) : list A :=
  match count with
  | 0 => work
  | S count' =>
      match work !! start with
      | None => work
      | Some pivot =>
          let left := insertionPoint start work pivot 0 start in
          let work' :=
            take left work ++ pivot :: take (start - left) (drop left work)
              ++ drop (S start) work in
          binaryInsertionSort count' work' (S start)
      end
  end.

Definition arraySort (l : list A) : list A :=
  if (length l <? 2)%nat then l
  else
    let '(runLength, work) := countAndMakeRun l in
    binaryInsertionSort (length l - runLength) work runLength.
End ArraySort.

(** ** Numbers

    The numbers the list handler computes with are integers, infinities
    or NaN: they come from decimal integer text, from integer literals and
    from the length of an array. *)
Inductive Number :=
  | Num (z : Z)
  | Infinity (negative : bool)
  | NaN.

Global Instance Number_eq_dec : EqDecision Number.
Proof. solve_decision. Defined.

(** The double nearest to the integer [a ≥ 0], a tie going to the even
    significand.  An integer below 2^53 is a double; from there on a
    double is a significand of 53 bits times a power of two.  A result of
    2^1024 or more says that no finite double is nearest. *)
Definition roundMagnitude (a : Z) : Z :=
  if (a <? 2 ^ 53)%Z then a
  else
    let e := (Z.log2 a - 52)%Z in
    let m := (a / 2 ^ e)%Z in
    let r := (a mod 2 ^ e)%Z in
    let half := (2 ^ (e - 1))%Z in
    let roundUp := (half <? r)%Z || ((r =? half)%Z && Z.odd m) in
    ((if roundUp then m + 1 else m) * 2 ^ e)%Z.

(** The number that the integer [z] is rounded to: by the coercion of its
    decimal text, by [parseInt] on that text, and as the result of an
    operation whose exact result is [z]. *)
Definition toNumber (z : Z) : Number :=
  let v := roundMagnitude (Z.abs z) in
  if (2 ^ 1024 <=? v)%Z then Infinity (z <? 0)%Z else Num (Z.sgn z * v).

(** [x + y] *)
Definition numAdd (x y : Number) : Number :=
  match x, y with
  | Num a, Num b => toNumber (a + b)
  | Num _, Infinity s | Infinity s, Num _ => Infinity s
  | Infinity s, Infinity t => if decide (s = t) then Infinity s else NaN
  | _, _ => NaN
  end.

(** [x - y] *)
Definition numSub (x y : Number) : Number :=
  match y with
  | Num b => numAdd x (Num (- b))
  | Infinity s => numAdd x (Infinity (negb s))
  | NaN => NaN
  end.

(** [x * y] *)
Definition numMul (x y : Number) : Number :=
  match x, y with
  | Num a, Num b => toNumber (a * b)
  | Num a, Infinity s | Infinity s, Num a =>
      if decide (a = 0%Z) then NaN else Infinity (xorb s (a <? 0)%Z)
  | Infinity s, Infinity t => Infinity (xorb s t)
  | _, _ => NaN
  end.

(** ** [Array.prototype.slice] and [Math.ceil] of a quotient *)

(** An argument of [slice] as an index into an array of [len] elements:
    NaN counts as 0, a negative index counts from the end, and the result
    is clipped to the array. *)
Definition relativeIndex (len : Z) (k : Number) : Z :=
  match k with
  | NaN => 0
  | Infinity true => 0
  | Infinity false => len
  | Num z => if (z <? 0)%Z then Z.max (len + z) 0 else Z.min z len
  end.

(** [l.slice(start, end)] *)
Definition slice {A} (l : list A) (startIndex endIndex : Number) : list A :=
  let len := Z.of_nat (length l) in
  let from := relativeIndex len startIndex in
  let to := relativeIndex len endIndex in
  take (Z.to_nat (to - from)) (drop (Z.to_nat from) l).

(** [Math.ceil(n / d)] for the length [n] of an array; [None] stands for
    the quotient by zero, which is not a finite number, and the quotient
    by an infinity is 0.  With [n] below 2^32 the rounding of the quotient
    to a double does not carry it across an integer. *)
Definition ceilDiv (n : Z) (d : Number) : option Z :=
  match d with
  | Num d => if decide (d = 0%Z) then None else Some (- ((- n) / d))%Z
  | Infinity _ => Some 0%Z
  | NaN => None
  end.

(** ** [GET /api/feedback] *)

(** [req.query] after destructuring.  A filter, [sort] and [order] are
    there or not; [page] and [limit], when there, are the integers that
    their decimal text denotes, of any size. *)
Record Query := mkQuery {
  q_status : option string;
  q_type : option string;
  q_priority : option string;
  q_page : option Z;
  q_limit : option Z;
  q_sort : option string;
  q_order : option string
}.

(** [if (v && v !== 'all')]: the filter is applied when the value is there,
    is not the empty string and is not ["all"]. *)
Definition filterActive (v : option string) : bool :=
  match v with
  | Some s => negb (bool_decide (s = "")) && negb (bool_decide (s = "all"))
  | None => false
  end.

(** [filtered.filter(item => item.field === v)] under the guard. *)
Definition applyFilter (v : option string) (field : Feedback → Json)
    (l : list Feedback) : list Feedback :=
  if filterActive v then filter (λ item, Some (field item) = JString <$> v) l else l.

Record Pagination := mkPagination {
  currentPage : Number;
  totalPages : option Z;
  totalItems : nat;
  itemsPerPage : Number
}.

Record ListStats := mkListStats {
  total : nat;
  pending : nat;
  reviewed : nat;
  resolved : nat
}.

Record ListResponse := mkListResponse {
  data : list Feedback;
  pagination : Pagination;
  stats : ListStats
}.

Definition countStatus (s : string) (l : list Feedback) : nat :=
  length (filter (λ f, status f = s) l).

(** [filteredFeedback] after the filters and the sort. *)
Definition filteredFeedback `{Validator} (q : Query) (st : Store) : list Feedback :=
  let sort := default "createdAt" (q_sort q) in
  let order := default "desc" (q_order q) in
  let filtered := feedback st in
  let filtered := applyFilter (q_status q) status filtered in
  let filtered := applyFilter (q_type q) (λ item, type_name (type item)) filtered in
  let filtered := applyFilter (q_priority q) priority filtered in
  arraySort (compareFeedback sort order) filtered.

(** [page] and [limit] are the numbers 1 and 10 by default and the
    coercion of the text otherwise; on decimal integer text [parseInt]
    returns the same number as the coercion. *)
Definition listFeedback `{Validator} (q : Query) (st : Store) : ListResponse :=
  let page := default (Num 1) (toNumber <$> q_page q) in
  let limit := default (Num 10) (toNumber <$> q_limit q) in
  let filtered := filteredFeedback q st in
  let startIndex := numMul (numSub page (Num 1)) limit in
  let endIndex := numAdd startIndex limit in
  let paginatedFeedback := slice filtered startIndex endIndex in
  {| data := paginatedFeedback;
     pagination :=
       {| currentPage := page;
          totalPages := ceilDiv (Z.of_nat (length filtered)) limit;
          totalItems := length filtered;
          itemsPerPage := limit |};
     stats :=
       {| total := length (feedback st);
          pending := countStatus "pending" (feedback st);
          reviewed := countStatus "reviewed" (feedback st);
          resolved := countStatus "resolved" (feedback st) |} |}.

(** ** Statistics *)

Record ByStatus := mkByStatus {
  byStatus_pending : nat;
  byStatus_reviewed : nat;
  byStatus_resolved : nat
}.

Record ByType := mkByType {
  byType_bug : nat;
  byType_feature : nat;
  byType_improvement : nat;
  byType_other : nat
}.

Record ByPriority := mkByPriority {
  byPriority_low : nat;
  byPriority_medium : nat;
  byPriority_high : nat
}.

Record FeedbackStats := mkFeedbackStats {
  stats_total : nat;
  byStatus : ByStatus;
  byType : ByType;
  byPriority : ByPriority
}.

Definition countType (t : FeedbackType) (l : list Feedback) : nat :=
  length (filter (λ f, type f = t) l).

Definition countPriority (p : string) (l : list Feedback) : nat :=
  length (filter (λ f, priority f = p) l).

Definition getFeedbackStats (st : Store) : FeedbackStats :=
  let feedback := feedback st in
  {| stats_total := length feedback;
     byStatus :=
       {| byStatus_pending := countStatus "pending" feedback;
          byStatus_reviewed := countStatus "reviewed" feedback;
          byStatus_resolved := countStatus "resolved" feedback |};
     byType :=
       {| byType_bug := countType bug feedback;
          byType_feature := countType feature feedback;
          byType_improvement := countType improvement feedback;
          byType_other := countType other feedback |};
     byPriority :=
       {| byPriority_low := countPriority "low" feedback;
          byPriority_medium := countPriority "medium" feedback;
          byPriority_high := countPriority "high" feedback |} |}.

(** ** [getMostCommonType] *)

(** The object [typeCounts]: its keys in the order they were first written,
    which is the order [Object.keys] lists them in. *)
Definition TypeCounts := list (FeedbackType * nat).

(** [acc[t] = (acc[t] || 0) + 1] *)
Fixpoint increment (t : FeedbackType) (acc : TypeCounts) : TypeCounts :=
  match acc with
  | [] => [(t, 1)]
  | (k, n) :: acc' =>
      if decide (k = t) then (k, n + 1) :: acc' else (k, n) :: increment t acc'
  end.

(** [typeCounts[t]]; [None] is [undefined]. *)
Fixpoint typeCount (t : FeedbackType) (acc : TypeCounts) : option nat :=
  match acc with
  | [] => None
  | (k, n) :: acc' => if decide (k = t) then Some n else typeCount t acc'
  end.

Definition countTypes (l : list Feedback) : TypeCounts :=
  foldl (λ acc f, increment (type f) acc) [] l.

(** [x > y] on two counts either of which may be [undefined]. *)
Definition count_gt (x y : option nat) : bool :=
  match x, y with
  | Some m, Some n => (n <? m)%nat
  | _, _ => false
  end.

Definition getMostCommonType (st : Store) : FeedbackType :=
  let typeCounts := countTypes (feedback st) in
  foldl (λ a b, if count_gt (typeCount a typeCounts) (typeCount b typeCounts)
                then a else b)
        feature (typeCounts.*1).

(** ** Requests that write the store *)

Inductive Request :=
  | Create (body : FeedbackBody) (t1 t2 : Z)
  | Update (i : Z) (body : list (string * Json)) (now : Z)
  | Delete (i : Z).

Definition handle `{Validator} (r : Request) (st : Store) : Response * Store :=
  match r with
  | Create body t1 t2 => createFeedback body t1 t2 st
  | Update i body now => updateFeedback i body now st
  | Delete i => deleteFeedback i st
  end.

(** The responses to a sequence of requests and the store they leave. *)
Fixpoint serve `{Validator} (rs : list Request) (st : Store) : list Response * Store :=
  match rs with
  | [] => ([], st)
  | r :: rs' =>
      let '(resp, st') := handle r st in
      let '(resps, st'') := serve rs' st' in
      (resp :: resps, st'')
  end.

(** The stores the server can be in. *)
Inductive reachable `{Validator} : Store → Prop :=
  | reachable_initial : reachable initialStore
  | reachable_handle r st : reachable st → reachable (handle r st).2.

(** ** An engine for the examples

    The examples are about text in ASCII.  On such text white space is
    the six characters that [Ascii.is_space] knows, the capital letters
    are A to Z, the length is the number of characters, and two strings
    compare as their bytes do.  An address is a text with an [@] in it.
    Where one side of [>] is not a string the answer is false, as it is
    in the engine when a number meets a string that is not the text of a
    number. *)
Fixpoint asciiTrimStart (s : string) : string :=
  match s with
  | String a s' => if Ascii.is_space a then asciiTrimStart s' else s
  | EmptyString => EmptyString
  end.

Definition asciiTrim (s : string) : string :=
  String.rev (asciiTrimStart (String.rev (asciiTrimStart s))).

Definition asciiLower (a : ascii) : ascii :=
  let n := nat_of_ascii a in
  if (65 <=? n)%nat && (n <=? 90)%nat then ascii_of_nat (n + 32) else a.

Fixpoint asciiToLowerCase (s : string) : string :=
  match s with
  | String a s' => String (asciiLower a) (asciiToLowerCase s')
  | EmptyString => EmptyString
  end.

Definition sampleValidator : Validator :=
  {| isEmail := λ s, bool_decide (is_Some (index 0 "@" s));
     isLength := λ lo hi s, (lo <=? String.length s)%nat && (String.length s <=? hi)%nat;
     trimSanitizer := asciiTrim;
     trim := asciiTrim;
     toLowerCase := asciiToLowerCase;
     greater := λ x y,
       match x, y with
       | JString s, JString t => String.ltb t s
       | _, _ => false
       end |}.

Definition sampleBody : FeedbackBody :=
  mkBody "Login broken" "Click does nothing" "bug" "high" "USER@Example.com".

Definition otherBody : FeedbackBody :=
  mkBody "  Dark mode " "Please add a dark theme" "feature" "low" "dev@example.com".

(** ** Observations on runs *)

(** A run of create requests only. *)
Definition createRequests (bs : list (FeedbackBody * Z * Z)) : list Request :=
  (λ b, Create b.1.1 b.1.2 b.2) <$> bs.

(** The id a response reports as newly assigned. *)
Definition createdId (r : Response) : option Z :=
  match r with
  | Created f => Some (id f)
  | _ => None
  end.

Definition createdIds (resps : list Response) : list Z := omap createdId resps.

(** The largest id in the store, 0 when the store is empty. *)
Definition maxId (st : Store) : Z := foldr Z.max 0%Z (id <$> feedback st).

(** Every record has a status and a priority of the data model. *)
Definition enumsValid (l : list Feedback) : Prop :=
  Forall (λ f, status f ∈ JString <$> statusNames ∧
               priority f ∈ JString <$> priorityNames) l.

(** An update body that only carries values of the data model. *)
Definition updateInEnums (body : list (string * Json)) : Prop :=
  Forall (λ kv, (kv.1 = "status" → kv.2 ∈ JString <$> statusNames) ∧
                (kv.1 = "priority" → kv.2 ∈ JString <$> priorityNames)) body.

(** ** What a query asks for *)

(** The constraint a filter value [v] puts on a field value [x], as the
    handler applies it: none when the value is absent, empty or ["all"],
    equality otherwise. *)
Definition constraintHolds (v : option string) (x : Json) : Prop :=
  v = None ∨ v = Some "" ∨ v = Some "all" ∨ JString <$> v = Some x.

Global Instance constraintHolds_dec v x : Decision (constraintHolds v x).
Proof. unfold constraintHolds. apply _. Defined.

Definition matchesQuery (q : Query) (f : Feedback) : Prop :=
  constraintHolds (q_status q) (status f) ∧
  constraintHolds (q_type q) (type_name (type f)) ∧
  constraintHolds (q_priority q) (priority f).

Global Instance matchesQuery_dec q f : Decision (matchesQuery q f).
Proof. unfold matchesQuery. apply _. Defined.

(** The constraint in the words of the specification: a filter that is
    absent or ["all"] asks for nothing, any other value for equality. *)
Definition constraintAsSpecified (v : option string) (x : Json) : Prop :=
  v = None ∨ v = Some "all" ∨ JString <$> v = Some x.

Global Instance constraintAsSpecified_dec v x : Decision (constraintAsSpecified v x).
Proof. unfold constraintAsSpecified. apply _. Defined.

Definition matchesAsSpecified (q : Query) (f : Feedback) : Prop :=
  constraintAsSpecified (q_status q) (status f) ∧
  constraintAsSpecified (q_type q) (type_name (type f)) ∧
  constraintAsSpecified (q_priority q) (priority f).

Global Instance matchesAsSpecified_dec q f : Decision (matchesAsSpecified q f).
Proof. unfold matchesAsSpecified. apply _. Defined.

(** The request [GET /api/feedback] without a query string. *)
Definition defaultQuery : Query := mkQuery None None None None None None None.

(** The index of the first record of type [t], where the reduce of
    [getMostCommonType] encounters the type. *)
Definition firstSeen (t : FeedbackType) (l : list Feedback) : option nat :=
  fst <$> list_find (λ f, type f = t) l.

Definition thirdBody : FeedbackBody :=
  mkBody "Docs" "Typos in the guide" "other" "medium" "writer@example.com".

(** The tie-break in the words of the specification: no type with as many
    records as the selected one is encountered before it. *)
Definition tieGoesToFirstSeen (st : Store) : Prop :=
  ∀ t' i j,
    countType t' (feedback st) = countType (getMostCommonType st) (feedback st) →
    firstSeen t' (feedback st) = Some i →
    firstSeen (getMostCommonType st) (feedback st) = Some j →
    (j ≤ i)%nat.

(** The step of the reduce of [getMostCommonType] on a count that is
    defined everywhere: the accumulator stays when its count is strictly
    greater. *)
Definition keepGreater {K : Type} (c : K → nat) (a b : K) : K :=
  if (c b <? c a)%nat then a else b.

(** ** The order a sort asks for *)

(** The value of a record that the comparator looks at. *)
Definition sortKey (sort : string) (a : Feedback) : Value :=
  if decide (sort = "createdAt" ∨ sort = "updatedAt")
  then toDate (getField a sort) else getField a sort.

(** [a] may stand before [b] in ascending order: its key is not greater. *)
Definition keyLe `{Validator} (sort : string) (a b : Feedback) : Prop :=
  js_gt (sortKey sort a) (sortKey sort b) = false.

(** The engine orders strings: [>] on two strings is a strict total
    order (it compares them unit by unit). *)
Definition stringsOrdered `{Validator} : Prop :=
  (∀ s t : string, greater s t = true → greater t s = false) ∧
  (∀ s t : string, greater s t = false → greater t s = false → s = t) ∧
  (∀ s t u : string, greater s t = false → greater t u = false → greater s u = false).

(** A key that is a number, a string or [undefined]: what a sort field
    holds unless an update has put another value into it. *)
Definition plainKey (v : Value) : Prop :=
  match v with
  | VJson (JOther _) => False
  | _ => True
  end.

Global Instance plainKey_dec v : Decision (plainKey v).
Proof. destruct v as [| |[|]|]; simpl; apply _. Defined.

(** The key with the empty string in the place of a value that is not
    plain. *)
Definition plainSortKey (sort : string) (a : Feedback) : Value :=
  match sortKey sort a with
  | VJson (JOther _) => VJson ""
  | v => v
  end.

(** The comparator on the keys made plain. *)
Definition comparePlain `{Validator} (sort order : string) (a b : Feedback) : Z :=
  if decide (order = "desc") then
    (if js_gt (plainSortKey sort b) (plainSortKey sort a) then 1 else -1)%Z
  else
    (if js_gt (plainSortKey sort a) (plainSortKey sort b) then 1 else -1)%Z.

Definition plainLe `{Validator} (sort : string) (a b : Feedback) : Prop :=
  js_gt (plainSortKey sort a) (plainSortKey sort b) = false.

(** Two values are of one kind, and plain. *)
Definition sameKind (x y : Value) : Prop :=
  match x, y with
  | VUndefined, VUndefined | VNumber _, VNumber _
  | VJson (JString _), VJson (JString _) | VTime _, VTime _ => True
  | _, _ => False
  end.

(** The query [q] with the given direction. *)
Definition withOrder (q : Query) (order : string) : Query :=
  mkQuery (q_status q) (q_type q) (q_priority q) (q_page q) (q_limit q)
          (q_sort q) (Some order).

(** ** [GET /api/feedback/:id] *)

(** [feedback.find(item => item.id === id)]; [None] is the answer 404. *)
Definition getFeedback (i : Z) (st : Store) : option Feedback :=
  snd <$> list_find (λ item, id item = i) (feedback st).

(** ** [calculateTrends] *)

Record TrendWindow := mkTrendWindow {
  window_total : nat;
  window_resolved : nat
}.

Record Trends := mkTrends {
  weekly : TrendWindow;
  monthly : TrendWindow
}.

(** [now] is the clock read [new Date()]; the two bounds are [now] less 7
    and 30 days in milliseconds. *)
Definition calculateTrends (now : Z) (st : Store) : Trends :=
  let lastWeek := (now - 7 * 24 * 60 * 60 * 1000)%Z in
  let lastMonth := (now - 30 * 24 * 60 * 60 * 1000)%Z in
  let weeklyFeedback := filter (λ f, (lastWeek ≤ createdAt f)%Z) (feedback st) in
  let monthlyFeedback := filter (λ f, (lastMonth ≤ createdAt f)%Z) (feedback st) in
  {| weekly :=
       {| window_total := length weeklyFeedback;
          window_resolved := countStatus "resolved" weeklyFeedback |};
     monthly :=
       {| window_total := length monthlyFeedback;
          window_resolved := countStatus "resolved" monthlyFeedback |} |}.

(** ** Invariants of the store *)

(** The ids in the array fall strictly from the head on and lie between 1
    and the counter, which is exclusive. *)
Definition idsOrdered (st : Store) : Prop :=
  StronglySorted (λ x y, (y < x)%Z) (id <$> feedback st) ∧
  Forall (λ x, (1 ≤ x < feedbackIdCounter st)%Z) (id <$> feedback st) ∧
  (1 ≤ feedbackIdCounter st)%Z.

Global Instance idsOrdered_dec st : Decision (idsOrdered st).
Proof. unfold idsOrdered. apply _. Defined.

(** The value the last entry of an update body gives to [key]. *)
Definition lastValue (key : string) (body : list (string * Json)) : option Json :=
  snd <$> last (filter (λ kv, kv.1 = key) body).

Global Instance Value_eq_dec : EqDecision Value.
Proof. solve_decision. Defined.

(** The names [getField] knows. *)
Definition recordFields : list string :=
  ["id"; "title"; "description"; "type"; "priority"; "email"; "status";
   "createdAt"; "updatedAt"].

(** ** Pages *)

(** A number that is neither an infinity nor NaN. *)
Definition isFinite (x : Number) : bool :=
  match x with
  | Num _ => true
  | _ => false
  end.

(** The query [q] for page [p]. *)
Definition withPage (q : Query) (p : Z) : Query :=
  mkQuery (q_status q) (q_type q) (q_priority q) (Some p) (q_limit q)
          (q_sort q) (q_order q).

(** The pages 1 to [k] of a query, one after the other. *)
Definition allPages `{Validator} (q : Query) (k : nat) (st : Store) : list Feedback :=
  mjoin ((λ p, data (listFeedback (withPage q (Z.of_nat p)) st)) <$> seq 1 k).

(** [x] stands for the integer [z ≥ 0] in an index computation on an
    array of fewer than [bound] elements: it is [z], or both are at least
    [bound]. *)
Definition approximates (bound z : Z) (x : Number) : Prop :=
  x = Num z ∨
  (bound ≤ z)%Z ∧ (x = Infinity false ∨ ∃ v, x = Num v ∧ (bound ≤ v)%Z).

(** A number that rounding leaves as it is. *)
Definition representable (x : Number) : Prop :=
  match x with
  | Num v => toNumber v = Num v
  | _ => True
  end.

(** * Properties *)

(** A closed decidable proposition is settled by evaluating its decision
    procedure. *)
Ltac by_decide :=
  lazymatch goal with
  | |- ?P => apply (bool_decide_unpack P); vm_compute; exact I
  end.

(** ** The update handler *)

Lemma collectUpdates_none (body : list (string * Json)) :
  Forall (λ kv, kv.1 ∉ allowedUpdates) body → collectUpdates body = [].
Proof.
  unfold collectUpdates. induction 1 as [|kv body Hkv _ IH]; [done|].
  by rewrite filter_cons_False.
Qed.

Lemma findIndex_Some i (l : list Feedback) idx old :
  findIndex i l = Some (idx, old) →
  l !! idx = Some old ∧ id old = i ∧ ∀ j f, l !! j = Some f → (j < idx)%nat → id f ≠ i.
Proof. unfold findIndex. by rewrite list_find_Some. Qed.

Lemma findIndex_is_Some i (l : list Feedback) :
  is_Some (findIndex i l) ↔ ∃ f, f ∈ l ∧ id f = i.
Proof.
  unfold findIndex. split.
  - intros [[idx old] (Hl & Hid & _)%list_find_Some].
    exists old. split; [by eapply list_elem_of_lookup_2|done].
  - intros (f & Hf & Hid). by eapply list_find_elem_of.
Qed.

Lemma findIndex_None i (l : list Feedback) :
  findIndex i l = None ↔ ¬ ∃ f, f ∈ l ∧ id f = i.
Proof.
  rewrite <-findIndex_is_Some, eq_None_not_Some. done.
Qed.

(** C2, as the claim states it: whatever the store and the target id, a body
    without an allowed key is answered with NoValidFields.  It fails where
    the id is not in the store: the handler looks the id up first and
    answers NotFound. *)
Lemma update_unknown_id_is_not_found :
  let st := (createFeedback (H := sampleValidator) sampleBody 1000 1000 initialStore).2 in
  let body : list (string * Json) := [("title", "x")] in
  Forall (λ kv, kv.1 ∉ allowedUpdates) body ∧
  updateFeedback 2 body 2000 st = (NotFound, st) ∧
  (updateFeedback 2 body 2000 st).1 ≠ NoValidFields ∧
  ¬ (∀ st i body now,
       Forall (λ kv, kv.1 ∉ allowedUpdates) body →
       (updateFeedback i body now st).1 = NoValidFields).
Proof.
  split_and!; [by_decide|done..|].
  intros Hall. by specialize (Hall initialStore 1%Z [] 0%Z (Forall_nil_2 _)).
Qed.

(** C2, amended: a body without an allowed key never changes the store; the
    answer is NoValidFields (400) when the target id is in the store and
    NotFound (404) when it is not. *)
Theorem update_without_allowed_key_unchanged st i body now :
  Forall (λ kv, kv.1 ∉ allowedUpdates) body →
  (updateFeedback i body now st).2 = st ∧
  ((∃ f, f ∈ feedback st ∧ id f = i) →
     (updateFeedback i body now st).1 = NoValidFields ∧
     statusCode (updateFeedback i body now st).1 = 400%Z) ∧
  ((¬ ∃ f, f ∈ feedback st ∧ id f = i) →
     (updateFeedback i body now st).1 = NotFound).
Proof.
  intros Hbody%collectUpdates_none. unfold updateFeedback. rewrite Hbody.
  destruct (findIndex i (feedback st)) as [[idx old]|] eqn:Hfind.
  - split_and!; [done|done|].
    intros Hnot%findIndex_None. congruence.
  - split_and!; [done| |done].
    intros Hex%findIndex_is_Some. rewrite Hfind in Hex. by destruct Hex.
Qed.

(** The store after one create, and a body that only names [title]. *)
Lemma update_without_allowed_key_unchanged_witness :
  let st := (createFeedback (H := sampleValidator) sampleBody 1000 1000 initialStore).2 in
  (updateFeedback 1 [("title", "x")] 2000 st).2 = st ∧
  (updateFeedback 1 [("title", "x")] 2000 st).1 = NoValidFields.
Proof.
  intros st.
  destruct (update_without_allowed_key_unchanged st 1 [("title", "x")] 2000)
    as (Hst & Hfound & _).
  - by_decide.
  - split; [exact Hst|]. apply Hfound.
    eexists. split; [apply list_elem_of_here|reflexivity].
Defined.

(** C6: on a record that is in the store, the body [{priority: "high"}]
    yields a record that differs from the old one in [priority] and
    [updatedAt] only, written at the index of the old one; every other
    index of the array and the id counter are as before. *)
Theorem update_priority_frame st i now idx old :
  findIndex i (feedback st) = Some (idx, old) →
  let new := mkFeedback (id old) (title old) (description old) (type old)
               "high" (email old) (status old) (createdAt old) now in
  updateFeedback i [("priority", "high")] now st
    = (Updated new, mkStore (<[idx := new]> (feedback st)) (feedbackIdCounter st)) ∧
  (updateFeedback i [("priority", "high")] now st).2.(feedback) !! idx = Some new ∧
  (∀ j, j ≠ idx →
     (updateFeedback i [("priority", "high")] now st).2.(feedback) !! j
       = feedback st !! j) ∧
  length (updateFeedback i [("priority", "high")] now st).2.(feedback)
    = length (feedback st).
Proof.
  intros Hfind new. unfold updateFeedback. rewrite Hfind. simpl.
  apply findIndex_Some in Hfind as (Hidx & _ & _).
  split_and!.
  - done.
  - apply list_lookup_insert_eq. by eapply lookup_lt_Some.
  - intros j Hj. by apply list_lookup_insert_ne.
  - apply length_insert.
Qed.

(** A record created with priority [low] and updated a second later. *)
Lemma update_priority_frame_witness :
  let st := (createFeedback (H := sampleValidator) otherBody 1000 1001 initialStore).2 in
  feedback st = [mkFeedback 1 "Dark mode" "Please add a dark theme" feature "low"
                   "dev@example.com" "pending" 1000 1001] ∧
  updateFeedback 1 [("priority", "high")] 2000 st
    = (Updated (mkFeedback 1 "Dark mode" "Please add a dark theme" feature "high"
                  "dev@example.com" "pending" 1000 2000),
       mkStore [mkFeedback 1 "Dark mode" "Please add a dark theme" feature "high"
                  "dev@example.com" "pending" 1000 2000] 2).
Proof.
  intros st. split; [reflexivity|].
  exact (proj1 (update_priority_frame st 1 2000 0
                  (mkFeedback 1 "Dark mode" "Please add a dark theme" feature "low"
                     "dev@example.com" "pending" 1000 1001) eq_refl)).
Defined.

(** ** The create handler and the id counter *)

Section Handlers.
Context `{Validator}.

Lemma validationErrors_nil b :
  validationErrors b = [] →
  isIn typeNames (body_type b) = true ∧ isIn priorityNames (body_priority b) = true.
Proof.
  unfold validationErrors. intros Herr.
  repeat (apply app_eq_nil in Herr as [? Herr]).
  split; [by destruct (isIn typeNames _)|by destruct (isIn priorityNames _)].
Qed.

(** A create either fails validation and leaves the store alone, or puts
    a record with the current counter as id at the head and increments
    the counter.  The record is pending and its priority has passed the
    [isIn] check. *)
Lemma createFeedback_cases b t1 t2 st :
  (∃ f, createFeedback b t1 t2 st
          = (Created f, mkStore (f :: feedback st) (feedbackIdCounter st + 1)) ∧
        id f = feedbackIdCounter st ∧ status f = "pending" ∧
        priority f ∈ JString <$> priorityNames ∧ createdAt f = t1 ∧ updatedAt f = t2) ∨
  (∃ errors, createFeedback b t1 t2 st = (ValidationFailed errors, st)).
Proof.
  unfold createFeedback.
  destruct (validationErrors (sanitize b)) as [|e errors] eqn:Herr; [|by eauto].
  destruct (type_of_name _) as [ty|]; [|by eauto].
  left. eexists. split; [done|]. simpl. split_and!; try done.
  apply validationErrors_nil in Herr as [_ Hp].
  apply bool_decide_eq_true in Hp. by apply (list_elem_of_fmap_2 JString) in Hp.
Qed.

(** The spread of [updates] writes [status] and [priority] only. *)
Lemma foldl_assignField_frame old updates :
  let f := foldl assignField old updates in
  id f = id old ∧ title f = title old ∧ description f = description old ∧
  type f = type old ∧ email f = email old ∧ createdAt f = createdAt old.
Proof.
  revert old. induction updates as [|kv updates IH]; intros old; [done|].
  simpl. destruct (IH (assignField old kv)) as (-> & -> & -> & -> & -> & ->).
  unfold assignField. by repeat case_decide.
Qed.

Lemma mergeUpdates_frame old updates now :
  id (mergeUpdates old updates now) = id old.
Proof. apply foldl_assignField_frame. Qed.

(** A create that is refused reports at least one violation. *)
Lemma createFeedback_refused b t1 t2 st errors st' :
  createFeedback b t1 t2 st = (ValidationFailed errors, st') →
  errors ≠ [] ∧ st' = st.
Proof.
  unfold createFeedback.
  destruct (validationErrors (sanitize b)) as [|e es] eqn:Herr.
  - apply validationErrors_nil in Herr as [Hty _].
    apply bool_decide_eq_true in Hty. unfold type_of_name.
    repeat case_decide; try done.
    apply list_elem_of_In in Hty. simpl in *.
    destruct Hty as [?|[?|[?|[?|[]]]]]; congruence.
  - destruct (type_of_name (body_type (sanitize b))); intros [= <- <-]; done.
Qed.

Lemma updateFeedback_ids i body now st :
  id <$> feedback (updateFeedback i body now st).2 = id <$> feedback st.
Proof.
  unfold updateFeedback.
  destruct (findIndex i (feedback st)) as [[idx old]|] eqn:Hfind; [|done].
  destruct (collectUpdates body) as [|kv updates] eqn:Hupd; [done|].
  simpl. rewrite list_fmap_insert.
  apply findIndex_Some in Hfind as (Hidx & _ & _).
  apply list_insert_id. rewrite list_lookup_fmap, Hidx. simpl. f_equal.
  symmetry. apply (mergeUpdates_frame old (kv :: updates) now).
Qed.

Lemma deleteFeedback_ids i st :
  id <$> feedback (deleteFeedback i st).2 = id <$> feedback st ∨
  ∃ k, id <$> feedback (deleteFeedback i st).2 = delete k (id <$> feedback st).
Proof.
  unfold deleteFeedback.
  destruct (findIndex i (feedback st)) as [[idx old]|]; [|by left].
  right. exists idx. simpl. by rewrite list_fmap_delete.
Qed.

(** No handler rewrites an id: the ids in the array after a request are
    the ids before it, with the new id in front after a create and with
    one position removed after a delete. *)
Lemma handle_ids r st :
  let ids := id <$> feedback st in
  let ids' := id <$> feedback (handle r st).2 in
  ids' = ids ∨ ids' = feedbackIdCounter st :: ids ∨ ∃ k, ids' = delete k ids.
Proof.
  destruct r as [b t1 t2|i body now|i]; simpl.
  - destruct (createFeedback_cases b t1 t2 st) as [(f & -> & Hid & _)|(e & ->)];
      [right; left; simpl; by rewrite Hid|by left].
  - left. apply updateFeedback_ids.
  - destruct (deleteFeedback_ids i st) as [?|?]; auto.
Qed.

(** A run of creates from any store: the ids handed out count up from
    the counter, and they are put in front of the array newest first. *)
Lemma serve_creates bs st :
  let run := serve (createRequests bs) st in
  let n := Z.of_nat (length (createdIds run.1)) in
  createdIds run.1 = seqZ (feedbackIdCounter st) n ∧
  feedbackIdCounter run.2 = (feedbackIdCounter st + n)%Z ∧
  id <$> feedback run.2 = reverse (createdIds run.1) ++ (id <$> feedback st).
Proof.
  revert st. induction bs as [|[[b t1] t2] bs IH]; intros st.
  { unfold createdIds. simpl. split_and!; [done|lia|done]. }
  simpl. specialize (IH (createFeedback b t1 t2 st).2).
  destruct (createFeedback_cases b t1 t2 st) as [(f & Hc & Hid & _)|(e & Hc)];
    rewrite Hc in *; simpl in IH;
    destruct (serve (createRequests bs) _) as [resps st'']; simpl in *.
  - destruct IH as (IH1 & IH2 & IH3). rewrite Hid. split_and!.
    + rewrite (seqZ_cons (feedbackIdCounter st)) by lia. f_equal.
      etrans; [exact IH1|]. f_equal; lia.
    + lia.
    + rewrite IH3, reverse_cons, <-(assoc_L (++)). simpl. by rewrite Hid.
  - done.
Qed.
End Handlers.

Lemma maxId_reverse_seqZ (n : nat) :
  foldr Z.max 0%Z (reverse (seqZ 1 (Z.of_nat n))) = Z.of_nat n.
Proof.
  induction n as [|n IH]; [done|].
  replace (Z.of_nat (S n)) with (Z.of_nat n + 1)%Z by lia.
  rewrite seqZ_app by lia. rewrite reverse_app.
  replace (seqZ (1 + Z.of_nat n) 1) with [(1 + Z.of_nat n)%Z] by done.
  simpl. rewrite IH. lia.
Qed.

(** C5: in a run of create requests on the fresh store the ids handed out
    are 1, 2, 3, ... in this order (the k-th successful create receives k),
    each is one more than the largest id in the store at that moment, and
    no request of any kind rewrites the id of a record. *)
Theorem create_ids_sequential `{Validator} (bs : list (FeedbackBody * Z * Z)) :
  let run := serve (createRequests bs) initialStore in
  createdIds run.1 = seqZ 1 (Z.of_nat (length (createdIds run.1))) ∧
  (∀ b t1 t2 f st',
     createFeedback b t1 t2 run.2 = (Created f, st') → id f = (maxId run.2 + 1)%Z) ∧
  (∀ r st,
     let ids := id <$> feedback st in
     let ids' := id <$> feedback (handle r st).2 in
     ids' = ids ∨ ids' = feedbackIdCounter st :: ids ∨ ∃ k, ids' = delete k ids).
Proof.
  intros run. destruct (serve_creates bs initialStore) as (Hids & Hctr & Hstore).
  fold run in Hids, Hctr, Hstore. simpl in Hids, Hctr, Hstore.
  split_and!.
  - done.
  - intros b t1 t2 f st' Hc.
    destruct (createFeedback_cases b t1 t2 run.2) as [(f' & Hc' & Hid & _)|(e & Hc')];
      rewrite Hc' in Hc; [|done].
    injection Hc as <- _. rewrite Hid, Hctr. unfold maxId.
    rewrite Hstore, app_nil_r.
    set (n := length (createdIds run.1)) in *.
    rewrite Hids, maxId_reverse_seqZ. lia.
  - apply handle_ids.
Qed.

(** Two creates on the fresh store, and the id a third one receives. *)
Lemma create_ids_sequential_witness :
  let bs := [(sampleBody, 1000, 1000); (otherBody, 2000, 2001)]%Z in
  let run := serve (H := sampleValidator) (createRequests bs) initialStore in
  createdIds run.1 = [1; 2]%Z ∧
  id (mkFeedback 3 "Login broken" "Click does nothing" bug "high"
        "user@example.com" "pending" 3000 3000) = (maxId run.2 + 1)%Z.
Proof.
  intros bs run.
  destruct (create_ids_sequential (H := sampleValidator) bs) as (Hids & Hmax & _).
  split.
  - exact Hids.
  - exact (Hmax sampleBody 3000%Z 3000%Z _ _ eq_refl).
Defined.

(** ** The enumerations *)

Section Enums.
Context `{Validator}.

Lemma serve_reachable rs st : reachable st → reachable (serve rs st).2.
Proof.
  revert st. induction rs as [|r rs IH]; intros st Hst; [done|].
  simpl. pose proof (reachable_handle r st Hst) as Hst'.
  destruct (handle r st) as [resp st']. specialize (IH st' Hst').
  by destruct (serve rs st').
Qed.

(** The create handler stores values of the data model: the priority has
    passed [isIn], the status is the constant [pending]. *)
Lemma createFeedback_enums b t1 t2 st :
  enumsValid (feedback st) → enumsValid (feedback (createFeedback b t1 t2 st).2).
Proof.
  intros Hst.
  destruct (createFeedback_cases b t1 t2 st)
    as [(f & -> & _ & Hs & Hp & _)|(e & ->)]; [|done].
  simpl. constructor; [|done].
  rewrite Hs. split; [|done]. by_decide.
Qed.

Lemma deleteFeedback_enums i st :
  enumsValid (feedback st) → enumsValid (feedback (deleteFeedback i st).2).
Proof.
  intros Hst. unfold deleteFeedback.
  destruct (findIndex i (feedback st)) as [[idx old]|]; [|done].
  simpl. by apply Forall_delete.
Qed.

Lemma foldl_assignField_enums old updates :
  status old ∈ JString <$> statusNames ∧ priority old ∈ JString <$> priorityNames →
  updateInEnums updates →
  status (foldl assignField old updates) ∈ JString <$> statusNames ∧
  priority (foldl assignField old updates) ∈ JString <$> priorityNames.
Proof.
  intros Hold Hupd. revert old Hold.
  induction Hupd as [|kv updates [Hs Hp] _ IH]; intros old [Hos Hop]; [done|].
  simpl. apply IH. unfold assignField.
  repeat case_decide; simpl; auto.
Qed.

(** The update handler keeps the enumerations when the body does; it does
    not look at the values itself. *)
Lemma updateFeedback_enums i body now st :
  updateInEnums body →
  enumsValid (feedback st) → enumsValid (feedback (updateFeedback i body now st).2).
Proof.
  intros Hbody Hst. unfold updateFeedback.
  destruct (findIndex i (feedback st)) as [[idx old]|] eqn:Hfind; [|done].
  destruct (collectUpdates body) as [|kv updates] eqn:Hupd; [done|].
  simpl. apply findIndex_Some in Hfind as (Hidx & _ & _).
  apply Forall_insert; [done|].
  apply (foldl_assignField_enums old (kv :: updates)).
  - by eapply (Forall_lookup_1 _ _ _ _ Hst).
  - rewrite <-Hupd. unfold collectUpdates, updateInEnums.
    apply list.Forall_forall. intros kv' [_ Hin]%list_elem_of_filter.
    by eapply (proj1 (list.Forall_forall _ _) Hbody).
Qed.
End Enums.

(** On a record that is in the store the update handler writes whatever
    status the body carries. *)
Lemma update_status_unchecked st i v now idx old :
  findIndex i (feedback st) = Some (idx, old) →
  let new := mkFeedback (id old) (title old) (description old) (type old)
               (priority old) (email old) v (createdAt old) now in
  updateFeedback i [("status", v)] now st
    = (Updated new, mkStore (<[idx := new]> (feedback st)) (feedbackIdCounter st)) ∧
  (updateFeedback i [("status", v)] now st).2.(feedback) !! idx = Some new.
Proof.
  intros Hfind new. unfold updateFeedback. rewrite Hfind. simpl.
  apply findIndex_Some in Hfind as (Hidx & _ & _).
  split; [done|]. apply list_lookup_insert_eq. by eapply lookup_lt_Some.
Qed.

(** C3, at a failing input: after one create, the body
    [{status: "banana", priority: "urgent"}] is accepted with code 200 and
    both values are stored, although neither belongs to its enumeration. *)
Theorem update_stores_values_outside_enums :
  let run := serve (H := sampleValidator)
               [Create sampleBody 1000 1000;
                Update 1 [("status", "banana"); ("priority", "urgent")] 2000]
               initialStore in
  reachable (H := sampleValidator) run.2 ∧
  (statusCode <$> run.1) = [201; 200]%Z ∧
  feedback run.2 = [mkFeedback 1 "Login broken" "Click does nothing" bug "urgent"
                      "user@example.com" "banana" 1000 2000] ∧
  ("banana" ∉ statusNames) ∧ ("urgent" ∉ priorityNames) ∧
  ¬ enumsValid (feedback run.2).
Proof.
  intros run. split_and!.
  - apply serve_reachable. constructor.
  - done.
  - done.
  - by_decide.
  - by_decide.
  - intros [[Hs _] _]%Forall_cons_1. revert Hs. by_decide.
Qed.

(** Requests whose update bodies carry values of the data model keep every
    record inside the enumerations. *)
Lemma handle_enums `{Validator} r st :
  match r with Update _ body _ => updateInEnums body | _ => True end →
  enumsValid (feedback st) → enumsValid (feedback (handle r st).2).
Proof.
  destruct r as [b t1 t2|i body now|i]; simpl; intros Hr Hst.
  - by apply createFeedback_enums.
  - by apply updateFeedback_enums.
  - by apply deleteFeedback_enums.
Qed.

(** ** Statistics *)

(** The counts by type add up for every array: a record has one of the
    four types. *)
Lemma countType_sum (l : list Feedback) :
  countType bug l + countType feature l + countType improvement l
    + countType other l = length l.
Proof.
  unfold countType. induction l as [|f l IH]; [done|].
  rewrite !filter_cons. simpl.
  destruct (type f); repeat case_decide; simplify_eq; simpl; lia.
Qed.

(** The counts by status and by priority add up when every record is
    inside the enumerations. *)
Lemma countStatus_sum (l : list Feedback) :
  Forall (λ f, status f ∈ JString <$> statusNames) l →
  countStatus "pending" l + countStatus "reviewed" l + countStatus "resolved" l
    = length l.
Proof.
  unfold countStatus. induction 1 as [|f l Hf _ IH]; [done|].
  rewrite !filter_cons. simpl.
  apply list_elem_of_In in Hf. simpl in Hf.
  destruct Hf as [<-|[<-|[<-|[]]]]; repeat case_decide; simplify_eq; simpl; lia.
Qed.

Lemma countPriority_sum (l : list Feedback) :
  Forall (λ f, priority f ∈ JString <$> priorityNames) l →
  countPriority "low" l + countPriority "medium" l + countPriority "high" l
    = length l.
Proof.
  unfold countPriority. induction 1 as [|f l Hf _ IH]; [done|].
  rewrite !filter_cons. simpl.
  apply list_elem_of_In in Hf. simpl in Hf.
  destruct Hf as [<-|[<-|[<-|[]]]]; repeat case_decide; simplify_eq; simpl; lia.
Qed.

Lemma getFeedbackStats_sums st :
  enumsValid (feedback st) →
  let s := getFeedbackStats st in
  byStatus_pending (byStatus s) + byStatus_reviewed (byStatus s)
    + byStatus_resolved (byStatus s) = stats_total s ∧
  byType_bug (byType s) + byType_feature (byType s) + byType_improvement (byType s)
    + byType_other (byType s) = stats_total s ∧
  byPriority_low (byPriority s) + byPriority_medium (byPriority s)
    + byPriority_high (byPriority s) = stats_total s.
Proof.
  intros Hst. simpl. split_and!.
  - apply countStatus_sum. eapply list.Forall_impl; [done|]. by intros f [? _].
  - apply countType_sum.
  - apply countPriority_sum. eapply list.Forall_impl; [done|]. by intros f [_ ?].
Qed.

(** C4, at a failing input: after one create and the update
    [{status: "archived"}] the store holds one record and the three counts
    by status are all 0, so they add up to 0 and not to [total]. *)
Theorem stats_by_status_miss_record :
  let run := serve (H := sampleValidator)
               [Create sampleBody 1000 1000;
                Update 1 [("status", "archived")] 2000] initialStore in
  let s := getFeedbackStats run.2 in
  reachable (H := sampleValidator) run.2 ∧
  (statusCode <$> run.1) = [201; 200]%Z ∧
  stats_total s = 1 ∧
  byStatus s = mkByStatus 0 0 0 ∧
  byStatus_pending (byStatus s) + byStatus_reviewed (byStatus s)
    + byStatus_resolved (byStatus s) ≠ stats_total s.
Proof.
  intros run s. split_and!; [|done..].
  apply serve_reachable. constructor.
Qed.

(** ** Sorting permutes *)

Section ArraySortFacts.
Context {A : Type} (comparefn : A → A → Z).

Lemma countAndMakeRun_perm (l : list A) :
  (countAndMakeRun comparefn l).2 ≡ₚ l ∧
  length (countAndMakeRun comparefn l).2 = length l.
Proof.
  destruct l as [|x [|y l]]; [done..|].
  unfold countAndMakeRun. cbv zeta.
  generalize (2 + runTail comparefn (comparefn y x <? 0)%Z y l).
  generalize (x :: y :: l). intros w n.
  destruct (_ <? _)%Z; cbn [snd]; [|done]. split.
  - rewrite reverse_Permutation. by rewrite take_drop.
  - by rewrite length_app, length_reverse, <-length_app, take_drop.
Qed.

Lemma insertionPoint_bounds fuel (work : list A) pivot (left right : nat) :
  (left ≤ right)%nat →
  (left ≤ insertionPoint comparefn fuel work pivot left right ≤ right)%nat.
Proof.
  revert left right. induction fuel as [|fuel IH]; intros left right Hle;
    cbn [insertionPoint]; [lia|].
  destruct (Nat.ltb_spec left right) as [Hlt|Hge]; [|lia].
  assert ((right - left) / 2 < right - left)%nat as Hhalf
    by (apply Nat.div_lt; lia).
  generalize dependent ((right - left) / 2). intros half Hhalf.
  destruct (work !! _); [|lia].
  destruct (_ <? _)%Z.
  - specialize (IH left (left + half)). lia.
  - specialize (IH (left + half + 1) right). lia.
Qed.

(** Moving the element at [start] down to [left] permutes the array. *)
Lemma insert_at_perm (work : list A) pivot (left start : nat) :
  work !! start = Some pivot → (left ≤ start)%nat →
  take left work ++ pivot :: take (start - left) (drop left work)
    ++ drop (S start) work ≡ₚ work.
Proof.
  intros Hpivot Hle.
  rewrite <-(take_drop_middle work start pivot Hpivot) at 4.
  replace (take start work)
    with (take left work ++ take (start - left) (drop left work)).
  - rewrite <-(assoc_L (++)). f_equiv. by rewrite <-Permutation_middle.
  - rewrite take_take_drop. f_equal. lia.
Qed.

Lemma binaryInsertionSort_perm count (work : list A) start :
  binaryInsertionSort comparefn count work start ≡ₚ work.
Proof.
  revert work start. induction count as [|count IH]; intros work start; [done|].
  simpl. destruct (work !! start) as [pivot|] eqn:Hpivot; [|done].
  rewrite IH. apply insert_at_perm; [done|].
  apply insertionPoint_bounds. lia.
Qed.

Lemma arraySort_perm (l : list A) : arraySort comparefn l ≡ₚ l.
Proof.
  unfold arraySort. destruct (_ <? _)%nat; [done|].
  destruct (countAndMakeRun_perm l) as [Hperm _].
  destruct (countAndMakeRun comparefn l) as [n w]. simpl in Hperm.
  by rewrite binaryInsertionSort_perm.
Qed.
End ArraySortFacts.

(** ** Rounding *)

Lemma roundMagnitude_small a : (a < 2 ^ 53)%Z → roundMagnitude a = a.
Proof. intros Ha. unfold roundMagnitude. by destruct (Z.ltb_spec a (2 ^ 53)); [|lia]. Qed.

(** From 2^53 on the result is a significand of 53 bits, or 2^53 itself,
    times a power of two. *)
Lemma roundMagnitude_large a :
  (2 ^ 53 ≤ a)%Z →
  ∃ m e, (2 ^ 52 ≤ m ≤ 2 ^ 53)%Z ∧ (1 ≤ e)%Z ∧ e = (Z.log2 a - 52)%Z ∧
         roundMagnitude a = (m * 2 ^ e)%Z.
Proof.
  intros Ha. unfold roundMagnitude. destruct (Z.ltb_spec a (2 ^ 53)) as [?|_]; [lia|].
  assert (0 < a)%Z as Hpos by lia.
  pose proof (Z.log2_spec a Hpos) as [Hlo Hhi].
  assert (53 ≤ Z.log2 a)%Z as Hlog.
  { apply Z.log2_le_pow2; [lia|done]. }
  set (e := (Z.log2 a - 52)%Z) in *.
  assert (1 ≤ e)%Z as He by lia.
  assert (0 < 2 ^ e)%Z as Hpow by (apply Z.pow_pos_nonneg; lia).
  assert (2 ^ Z.log2 a = 2 ^ 52 * 2 ^ e)%Z as Hsplit.
  { rewrite <-Z.pow_add_r by lia. f_equal. lia. }
  assert (Z.succ (Z.log2 a) = 53 + e)%Z as Hsucc by lia.
  rewrite Hsucc, Z.pow_add_r in Hhi by lia.
  assert (2 ^ 52 ≤ a / 2 ^ e < 2 ^ 53)%Z as Hm.
  { split.
    - apply Z.div_le_lower_bound; [done|]. lia.
    - apply Z.div_lt_upper_bound; [done|]. lia. }
  eexists _, e. split; [|split; [done|split; reflexivity]].
  destruct (_ || _); lia.
Qed.

Lemma roundMagnitude_ge a : (2 ^ 53 ≤ a)%Z → (2 ^ 53 ≤ roundMagnitude a)%Z.
Proof.
  intros Ha. destruct (roundMagnitude_large a Ha) as (m & e & Hm & He & _ & ->).
  assert (2 ^ 1 ≤ 2 ^ e)%Z by (apply Z.pow_le_mono_r; lia).
  change (2 ^ 53)%Z with (2 ^ 52 * 2 ^ 1)%Z. nia.
Qed.

Lemma roundMagnitude_significand m e :
  (2 ^ 52 ≤ m < 2 ^ 53)%Z → (1 ≤ e)%Z → roundMagnitude (m * 2 ^ e) = (m * 2 ^ e)%Z.
Proof.
  intros Hm He. unfold roundMagnitude.
  destruct (Z.ltb_spec (m * 2 ^ e) (2 ^ 53)) as [|Hbig]; [done|].
  assert (0 < 2 ^ e)%Z as Hpow by (apply Z.pow_pos_nonneg; lia).
  rewrite Z.log2_mul_pow2 by lia.
  assert (Z.log2 m = 52)%Z as ->.
  { apply Z.log2_unique; [lia|]. change (Z.succ 52) with 53%Z. lia. }
  replace (e + 52 - 52)%Z with e by lia.
  rewrite Z.div_mul, Z.mod_mul by lia.
  assert (0 < 2 ^ (e - 1))%Z by (apply Z.pow_pos_nonneg; lia).
  destruct (Z.ltb_spec (2 ^ (e - 1)) 0); [lia|].
  destruct (Z.eqb_spec 0 (2 ^ (e - 1))); [lia|]. done.
Qed.

Lemma roundMagnitude_idemp a :
  (0 ≤ a)%Z → roundMagnitude (roundMagnitude a) = roundMagnitude a.
Proof.
  intros Ha. destruct (Z.lt_ge_cases a (2 ^ 53)) as [Hs|Hl].
  { by rewrite !(roundMagnitude_small a Hs). }
  destruct (roundMagnitude_large a Hl) as (m & e & Hm & He & _ & ->).
  destruct (decide (m = 2 ^ 53)%Z) as [->|Hne].
  - replace (2 ^ 53 * 2 ^ e)%Z with (2 ^ 52 * 2 ^ (e + 1))%Z.
    + apply roundMagnitude_significand; lia.
    + rewrite Z.pow_add_r by lia. lia.
  - apply roundMagnitude_significand; lia.
Qed.

Lemma toNumber_small z : (Z.abs z < 2 ^ 53)%Z → toNumber z = Num z.
Proof.
  intros Hz. unfold toNumber. rewrite roundMagnitude_small by done.
  destruct (Z.leb_spec (2 ^ 1024) (Z.abs z)) as [Hbig|_].
  - assert (2 ^ 53 < 2 ^ 1024)%Z by done. lia.
  - f_equal. lia.
Qed.

Lemma roundMagnitude_pos a : (0 < a)%Z → (0 < roundMagnitude a)%Z.
Proof.
  intros Ha. destruct (Z.lt_ge_cases a (2 ^ 53)) as [Hs|Hl].
  - by rewrite roundMagnitude_small.
  - pose proof (roundMagnitude_ge _ Hl). lia.
Qed.

(** An integer below 2^1023 in magnitude is rounded to a finite number. *)
Lemma toNumber_finite z : (Z.abs z < 2 ^ 1023)%Z → isFinite (toNumber z) = true.
Proof.
  intros Hz. unfold toNumber.
  destruct (Z.leb_spec (2 ^ 1024) (roundMagnitude (Z.abs z))) as [Hbig|_]; [|done].
  exfalso. assert (2 ^ 1023 < 2 ^ 1024)%Z as Hpow by done.
  destruct (Z.lt_ge_cases (Z.abs z) (2 ^ 53)) as [Hs|Hl].
  { rewrite roundMagnitude_small in Hbig by done. lia. }
  destruct (roundMagnitude_large _ Hl) as (m & e & Hm & He & Hlog & Hround).
  rewrite Hround in Hbig.
  assert (Z.log2 (Z.abs z) < 1023)%Z as Hlt by (apply Z.log2_lt_pow2; lia).
  assert (2 ^ e ≤ 2 ^ 970)%Z as Hexp by (apply Z.pow_le_mono_r; lia).
  assert (m * 2 ^ e ≤ 2 ^ 53 * 2 ^ 970)%Z as Hle.
  { apply Z.mul_le_mono_nonneg; lia. }
  assert (2 ^ 53 * 2 ^ 970 = 2 ^ 1023)%Z as Heq by done.
  lia.
Qed.

(** Roundings as the engine does them: 2^53 + 1 goes down to the even
    significand and 2^53 + 3 up, 10^23 becomes the double that prints as
    1e+23, and the first integer without a finite double is
    2^1024 - 2^970. *)
Example toNumber_examples :
  toNumber 9007199254740993 = Num 9007199254740992 ∧
  toNumber 9007199254740995 = Num 9007199254740996 ∧
  toNumber (-9007199254740993) = Num (-9007199254740992) ∧
  toNumber (10 ^ 23) = Num 99999999999999991611392 ∧
  toNumber (2 ^ 1024 - 2 ^ 970 - 1) = Num (2 ^ 1024 - 2 ^ 971) ∧
  toNumber (2 ^ 1024 - 2 ^ 970) = Infinity false ∧
  toNumber (10 ^ 309) = Infinity false ∧
  toNumber (- 10 ^ 309) = Infinity true.
Proof. by vm_compute. Qed.

(** A number that comes out of a rounding is left as it is by another. *)
Lemma toNumber_representable z : representable (toNumber z).
Proof.
  unfold toNumber.
  destruct (Z.leb_spec (2 ^ 1024) (roundMagnitude (Z.abs z))) as [|Hfin]; [done|].
  unfold representable, toNumber.
  destruct (decide (z = 0%Z)) as [->|Hz]; [done|].
  pose proof (roundMagnitude_pos (Z.abs z)) as Hpos.
  pose proof (roundMagnitude_idemp (Z.abs z)) as Hidemp.
  set (v := roundMagnitude (Z.abs z)) in *.
  assert (Z.abs (Z.sgn z * v) = v) as ->.
  { destruct (Z.sgn_spec z) as [(? & ->)|[(? & ->)|(? & ->)]]; lia. }
  assert (Z.sgn (Z.sgn z * v) = Z.sgn z) as ->.
  { destruct (Z.sgn_spec z) as [(? & ->)|[(? & ->)|(? & ->)]]; lia. }
  rewrite Hidemp by lia.
  by destruct (Z.leb_spec (2 ^ 1024) v); [lia|].
Qed.

Lemma toNumber_opp z v : toNumber z = Num v → toNumber (- z) = Num (- v).
Proof.
  unfold toNumber. rewrite Z.abs_opp.
  destruct (Z.leb_spec (2 ^ 1024) (roundMagnitude (Z.abs z))); [done|].
  intros [= <-]. f_equal. rewrite Z.sgn_opp. lia.
Qed.

(** ** Numbers that stand for indices *)

Lemma approximates_exact bound z : approximates bound z (Num z).
Proof. by left. Qed.

Lemma approximates_weaken bound bound' z x :
  (bound' ≤ bound)%Z → approximates bound z x → approximates bound' z x.
Proof.
  intros Hb [->|[Hz [->|(v & -> & Hv)]]]; [by left|right..].
  - split; [lia|by left].
  - split; [lia|]. right. exists v. split; [done|lia].
Qed.

Lemma toNumber_approximates z : (0 ≤ z)%Z → approximates (2 ^ 53) z (toNumber z).
Proof.
  intros Hz. destruct (Z.lt_ge_cases z (2 ^ 53)) as [Hs|Hl].
  { left. apply toNumber_small. lia. }
  right. split; [done|]. unfold toNumber.
  rewrite Z.abs_eq by done. pose proof (roundMagnitude_ge z Hl) as Hge.
  destruct (Z.leb_spec (2 ^ 1024) (roundMagnitude z)).
  - left. f_equal. by destruct (Z.ltb_spec z 0); [lia|].
  - right. eexists. split; [done|]. rewrite Z.sgn_pos by lia. lia.
Qed.

(** Rounding an integer of at least 2^52 gives at least 2^52. *)
Lemma toNumber_large z :
  (2 ^ 52 ≤ z)%Z → toNumber z = Infinity false ∨ ∃ v, toNumber z = Num v ∧ (2 ^ 52 ≤ v)%Z.
Proof.
  intros Hz. assert (0 ≤ z)%Z as Hpos by lia.
  destruct (toNumber_approximates z Hpos) as [->|[_ [->|(v & -> & Hv)]]].
  - right. by exists z.
  - by left.
  - right. exists v. split; [done|]. lia.
Qed.

Lemma approximates_pred p x :
  (1 ≤ p)%Z → approximates (2 ^ 53) p x →
  approximates (2 ^ 52) (p - 1) (numSub x (Num 1)).
Proof.
  intros Hp [->|[Hbig [->|(v & -> & Hv)]]]; simpl.
  - apply (approximates_weaken (2 ^ 53)); [done|].
    apply toNumber_approximates. lia.
  - right. split; [lia|by left].
  - right. split; [lia|]. apply toNumber_large. lia.
Qed.

Lemma approximates_mul a x b y :
  (0 ≤ a)%Z → (1 ≤ b)%Z → isFinite y = true →
  approximates (2 ^ 52) a x → approximates (2 ^ 52) b y →
  approximates (2 ^ 52) (a * b) (numMul x y).
Proof.
  intros Ha Hb Hfin Hx Hy.
  assert (∃ vb, y = Num vb ∧ (1 ≤ vb)%Z ∧ (vb = b ∨ (2 ^ 52 ≤ b)%Z ∧ (2 ^ 52 ≤ vb)%Z))
    as (vb & -> & Hvb & Hb').
  { destruct Hy as [->|[Hbig [->|(v & -> & Hv)]]]; [|done|].
    - exists b. auto.
    - exists v. split; [done|]. split; [lia|auto]. }
  clear Hy Hfin.
  destruct Hx as [->|[Hbig [->|(va & -> & Hva)]]]; simpl.
  - destruct Hb' as [->|[Hbb Hbv]].
    { apply (approximates_weaken (2 ^ 53)); [done|].
      apply toNumber_approximates. nia. }
    destruct (decide (a = 0%Z)) as [->|Ha0].
    + left. by rewrite !Z.mul_0_l.
    + right. split; [nia|]. apply toNumber_large. nia.
  - rewrite decide_False by lia. replace (vb <? 0)%Z with false by lia.
    right. split; [nia|by left].
  - right. split; [nia|]. apply toNumber_large. nia.
Qed.

Lemma approximates_add a x b y :
  (0 ≤ a)%Z → (0 ≤ b)%Z →
  approximates (2 ^ 52) a x → approximates (2 ^ 52) b y →
  approximates (2 ^ 52) (a + b) (numAdd x y).
Proof.
  intros Ha Hb [->|[Hbiga [->|(va & -> & Hva)]]] [->|[Hbigb [->|(vb & -> & Hvb)]]];
    simpl; try (right; split; [lia|]; (by left) || (apply toNumber_large; lia)).
  apply (approximates_weaken (2 ^ 53)); [done|].
  apply toNumber_approximates. lia.
Qed.

(** ** Slices *)

Lemma relativeIndex_approximates bound len z x :
  (0 ≤ z)%Z → (0 ≤ len ≤ bound)%Z → approximates bound z x →
  relativeIndex len x = Z.min z len.
Proof.
  intros Hz Hlen [->|[Hbig [->|(v & -> & Hv)]]]; simpl.
  - by destruct (Z.ltb_spec z 0); [lia|].
  - lia.
  - destruct (Z.ltb_spec v 0); lia.
Qed.

(** A slice between two numbers that stand for the indices [from] and
    [from + n] drops [from] elements and takes [n] of what is left. *)
Lemma slice_take_drop {A} bound (l : list A) (from n : Z) x y :
  (0 ≤ from)%Z → (0 ≤ n)%Z → (Z.of_nat (length l) ≤ bound)%Z →
  approximates bound from x → approximates bound (from + n) y →
  slice l x y = take (Z.to_nat n) (drop (Z.to_nat from) l).
Proof.
  intros Hfrom Hn Hlen Hx Hy. unfold slice.
  rewrite (relativeIndex_approximates bound _ from x) by (done || lia).
  rewrite (relativeIndex_approximates bound _ (from + n) y) by (done || lia).
  destruct (Z.le_gt_cases from (Z.of_nat (length l))) as [Hin|Hout].
  - rewrite (Z.min_l from) by lia.
    destruct (Z.le_gt_cases (from + n) (Z.of_nat (length l))) as [Hfit|Hcut].
    + rewrite Z.min_l by lia. f_equal. lia.
    + rewrite Z.min_r by lia.
      rewrite !take_ge; [done|rewrite length_drop; lia..].
  - rewrite !Z.min_r by lia. rewrite Z.sub_diag. simpl.
    rewrite (drop_ge l (Z.to_nat from)) by lia. by rewrite take_nil.
Qed.

Lemma slice_sublist {A} (l : list A) (from to : Number) : slice l from to `sublist_of` l.
Proof.
  unfold slice. etrans; [apply sublist_take|apply sublist_drop].
Qed.

(** A slice that ends at index 0 is empty. *)
Lemma slice_to_zero {A} (l : list A) (from to : Number) :
  relativeIndex (Z.of_nat (length l)) to = 0%Z → slice l from to = [].
Proof.
  intros Hto. unfold slice. rewrite Hto.
  match goal with |- take ?n _ = _ => replace n with 0; [done|] end.
  assert (0 ≤ relativeIndex (Z.of_nat (length l)) from)%Z; [|lia].
  destruct from as [z|[]|]; simpl; [|lia..]. destruct (Z.ltb_spec z 0); lia.
Qed.

(** ** Filtering *)

Lemma filter_all {A} (P : A → Prop) `{∀ x, Decision (P x)} (l : list A) :
  Forall P l → filter P l = l.
Proof.
  induction 1 as [|x l Hx _ IH]; [done|].
  by rewrite filter_cons_True, IH.
Qed.

(** One [if (v && v !== 'all') filtered = filtered.filter(...)] step keeps
    the elements on which the constraint of [v] holds. *)
Lemma applyFilter_constraint v field (l : list Feedback) :
  applyFilter v field l = filter (λ item, constraintHolds v (field item)) l.
Proof.
  unfold applyFilter, filterActive, constraintHolds.
  destruct v as [s|]; [|symmetry; apply filter_all, list.Forall_forall; auto].
  destruct (decide (s = "")) as [->|Hempty];
    [symmetry; apply filter_all, list.Forall_forall; auto|].
  destruct (decide (s = "all")) as [->|Hall];
    [symmetry; apply filter_all, list.Forall_forall; auto|].
  rewrite !bool_decide_eq_false_2 by done. simpl.
  apply list_filter_iff. intros item. split; [by auto|].
  intros [?|[?|[?|?]]]; congruence.
Qed.

(** The array the handler paginates holds the matching records of the
    store, each as often as the store does. *)
Lemma filteredFeedback_perm `{Validator} q st :
  filteredFeedback q st ≡ₚ filter (matchesQuery q) (feedback st).
Proof.
  unfold filteredFeedback. rewrite arraySort_perm.
  rewrite !applyFilter_constraint, !list_filter_filter.
  erewrite list_filter_iff; [done|].
  intros item. unfold matchesQuery. tauto.
Qed.

(** C8, as the claim states it: a filter constrains its field unless it is
    absent or ["all"].  It fails for the empty value ([?status=]), which the
    handler treats like an absent one: the pending record is returned
    though its status is not the empty string. *)
Lemma empty_filter_value_is_no_constraint :
  let st := (createFeedback (H := sampleValidator) sampleBody 1000 1000 initialStore).2 in
  let q := mkQuery (Some "") None None None None None None in
  data (listFeedback (H := sampleValidator) q st) = feedback st ∧
  filter (matchesAsSpecified q) (feedback st) = [] ∧
  ¬ (filteredFeedback (H := sampleValidator) q st
       ≡ₚ filter (matchesAsSpecified q) (feedback st)).
Proof.
  intros st q. split_and!; [done..|].
  intros Hperm%Permutation_length. by vm_compute in Hperm.
Qed.

(** C8, amended: the records the handler sorts and paginates are exactly
    the records of the store on which every filter holds, where a filter
    that is absent, empty or ["all"] holds on every record and any other
    holds on the records whose field equals it; the page returned is cut
    out of these. *)
Theorem filters_select_matching `{Validator} st q :
  filteredFeedback q st ≡ₚ filter (matchesQuery q) (feedback st) ∧
  (∀ f, f ∈ filteredFeedback q st ↔ f ∈ feedback st ∧ matchesQuery q f) ∧
  data (listFeedback q st) `sublist_of` filteredFeedback q st.
Proof.
  split_and!.
  - apply filteredFeedback_perm.
  - intros f. rewrite filteredFeedback_perm, list_elem_of_filter. tauto.
  - apply slice_sublist.
Qed.

(** ** Pagination *)

Lemma page_number q :
  default (Num 1) (toNumber <$> q_page q) = toNumber (default 1%Z (q_page q)).
Proof. by destruct (q_page q). Qed.

Lemma limit_number q :
  default (Num 10) (toNumber <$> q_limit q) = toNumber (default 10%Z (q_limit q)).
Proof. by destruct (q_limit q). Qed.

Lemma filteredFeedback_length `{Validator} q st :
  length (filteredFeedback q st) ≤ length (feedback st).
Proof. rewrite filteredFeedback_perm. apply length_filter. Qed.

(** The page of a query whose page number and page size are at least 1,
    on an array of fewer than 2^32 records: unless the page size is
    rounded to infinity, rounding the numbers to doubles changes nothing
    in the indices where the array is cut. *)
Lemma listFeedback_data `{Validator} st q :
  let p := default 1%Z (q_page q) in
  let s := default 10%Z (q_limit q) in
  (1 ≤ p)%Z → (1 ≤ s)%Z → isFinite (toNumber s) = true →
  (Z.of_nat (length (feedback st)) < 2 ^ 32)%Z →
  data (listFeedback q st)
    = take (Z.to_nat s) (drop (Z.to_nat ((p - 1) * s)) (filteredFeedback q st)).
Proof.
  intros p s Hp Hs Hfin Hlen. unfold listFeedback. cbn [data].
  rewrite page_number, limit_number. fold p s.
  pose proof (filteredFeedback_length q st) as Hle.
  assert (approximates (2 ^ 52) s (toNumber s)) as Hlimit.
  { apply (approximates_weaken (2 ^ 53)); [done|]. apply toNumber_approximates. lia. }
  assert (approximates (2 ^ 52) ((p - 1) * s)
            (numMul (numSub (toNumber p) (Num 1)) (toNumber s))) as Hstart.
  { apply approximates_mul; [lia|done|done| |done].
    apply approximates_pred; [done|]. apply toNumber_approximates. lia. }
  apply (slice_take_drop (2 ^ 52)); [nia|lia| |done|].
  - assert (2 ^ 32 < 2 ^ 52)%Z by done. lia.
  - apply approximates_add; [nia|lia|done..].
Qed.

(** The number of pages reported for a page size of at least 1 that is
    not rounded to infinity. *)
Lemma listFeedback_totalPages `{Validator} st q :
  let s := default 10%Z (q_limit q) in
  (1 ≤ s)%Z → isFinite (toNumber s) = true →
  (Z.of_nat (length (feedback st)) < 2 ^ 32)%Z →
  ∃ k, totalPages (pagination (listFeedback q st)) = Some k ∧
       ((k - 1) * s < Z.of_nat (length (filteredFeedback q st)) ≤ k * s)%Z.
Proof.
  intros s Hs Hfin Hlen. unfold listFeedback. cbn [pagination totalPages].
  rewrite limit_number. fold s.
  pose proof (filteredFeedback_length q st) as Hle.
  set (n := Z.of_nat (length (filteredFeedback q st))).
  assert (0 ≤ n < 2 ^ 32)%Z as Hn by lia. clearbody n.
  assert (2 ^ 32 < 2 ^ 53)%Z as Hpow by done.
  destruct (toNumber_approximates s) as [->|[Hbig [Hinf|(v & -> & Hv)]]]; [lia| | |].
  - unfold ceilDiv. rewrite decide_False by lia. eexists. split; [done|].
    pose proof (Z.div_mod (- n) s). pose proof (Z.mod_pos_bound (- n) s). nia.
  - by rewrite Hinf in Hfin.
  - unfold ceilDiv. rewrite decide_False by lia. eexists. split; [done|].
    pose proof (Z.div_mod (- n) v). pose proof (Z.mod_pos_bound (- n) v).
    assert (- n / v = 0 ∨ - n / v = -1)%Z as [Hq|Hq] by nia; rewrite Hq in *; nia.
Qed.

(** C7, as the claim states it: every page size of at least 1 gives the
    slice and the number of pages.  It fails where the page size is not
    a finite double: the text of 10^309 is coerced to [Infinity], the
    start index [(1 - 1) * Infinity] is NaN and so is the end index, the
    slice is empty and the number of pages is 0, although page 1 of this
    size should hold all three records. *)
Lemma page_size_beyond_doubles_is_empty :
  let bs := [(sampleBody, 1000, 1000); (otherBody, 2000, 2001);
             (sampleBody, 3000, 3000)]%Z in
  let st := (serve (H := sampleValidator) (createRequests bs) initialStore).2 in
  let q := mkQuery None None None None (Some (10 ^ 309)%Z) None None in
  let r := listFeedback (H := sampleValidator) q st in
  (1 ≤ default 1 (q_page q))%Z ∧ (1 ≤ default 10 (q_limit q))%Z ∧
  (id <$> filteredFeedback (H := sampleValidator) q st) = [3; 2; 1]%Z ∧
  itemsPerPage (pagination r) = Infinity false ∧
  data r = [] ∧
  totalItems (pagination r) = 3 ∧
  totalPages (pagination r) = Some 0%Z ∧
  (0 * 10 ^ 309 < 3 ≤ 1 * 10 ^ 309)%Z ∧
  ¬ (∀ st q,
       (1 ≤ default 1 (q_page q))%Z → (1 ≤ default 10 (q_limit q))%Z →
       length (data (listFeedback (H := sampleValidator) q st))
         = (Z.to_nat (default 10%Z (q_limit q))
              `min` (length (filteredFeedback (H := sampleValidator) q st)
                     - Z.to_nat ((default 1%Z (q_page q) - 1) * default 10%Z (q_limit q))))%nat).
Proof.
  intros bs st q r.
  assert (data r = []) as Hdata by (by vm_compute).
  assert (3 ≤ 10 ^ 309)%Z as Hsize by (by vm_compute).
  split_and!;
    [by vm_compute|by vm_compute|by vm_compute|by vm_compute|exact Hdata
    |by vm_compute|by vm_compute|reflexivity|by rewrite Z.mul_1_l|].
  intros Hclaim. specialize (Hclaim st q).
  fold r in Hclaim. rewrite Hdata in Hclaim.
  change (default 10%Z (q_limit q)) with (10 ^ 309)%Z in Hclaim.
  change (default 1%Z (q_page q)) with 1%Z in Hclaim.
  change (length (filteredFeedback q st)) with 3 in Hclaim.
  revert Hclaim Hsize. clear. generalize (10 ^ 309)%Z. intros size Hclaim Hsize.
  simpl in Hclaim. lia.
Qed.

(** C7, amended: for a page [p ≥ 1] of a size [s ≥ 1] that is a finite
    number when read as a double, the handler returns the [s] records from
    index [(p - 1) * s] on, fewer when the array ends before, none when it
    starts after; [totalItems] counts the matching records before
    pagination and [totalPages] is the least [k] with
    [totalItems ≤ k * s].  The store is an array, of fewer than 2^32
    records. *)
Theorem pagination_page_slice `{Validator} st q :
  let p := default 1%Z (q_page q) in
  let s := default 10%Z (q_limit q) in
  (1 ≤ p)%Z → (1 ≤ s)%Z → isFinite (toNumber s) = true →
  (Z.of_nat (length (feedback st)) < 2 ^ 32)%Z →
  let filtered := filteredFeedback q st in
  let r := listFeedback q st in
  let startIndex := Z.to_nat ((p - 1) * s) in
  data r = take (Z.to_nat s) (drop startIndex filtered) ∧
  length (data r) = (Z.to_nat s `min` (length filtered - startIndex))%nat ∧
  ((length filtered ≤ startIndex)%nat → data r = []) ∧
  totalItems (pagination r) = length filtered ∧
  totalItems (pagination r) = length (filter (matchesQuery q) (feedback st)) ∧
  ∃ k, totalPages (pagination r) = Some k ∧
       ((k - 1) * s < Z.of_nat (totalItems (pagination r)) ≤ k * s)%Z.
Proof.
  intros p s Hp Hs Hfin Hlen filtered r startIndex.
  pose proof (listFeedback_data st q Hp Hs Hfin Hlen) as Hdata.
  fold p s filtered r startIndex in Hdata.
  split_and!.
  - done.
  - rewrite Hdata, length_take, length_drop. done.
  - intros Hout. rewrite Hdata, drop_ge by done. by rewrite take_nil.
  - done.
  - unfold r, listFeedback. cbn [pagination totalItems].
    by rewrite filteredFeedback_perm.
  - by apply listFeedback_totalPages.
Qed.

(** The second page of size 2 of a store with three records. *)
Lemma pagination_page_slice_witness :
  let bs := [(sampleBody, 1000, 1000); (otherBody, 2000, 2001);
             (sampleBody, 3000, 3000)]%Z in
  let st := (serve (H := sampleValidator) (createRequests bs) initialStore).2 in
  let q := mkQuery None None None (Some 2%Z) (Some 2%Z) None None in
  (id <$> data (listFeedback (H := sampleValidator) q st)) = [1%Z] ∧
  totalItems (pagination (listFeedback (H := sampleValidator) q st)) = 3 ∧
  totalPages (pagination (listFeedback (H := sampleValidator) q st)) = Some 2%Z.
Proof.
  intros bs st q.
  destruct (pagination_page_slice (H := sampleValidator) st q)
    as (Hdata & _ & _ & Hitems & _ & k & Hk & _).
  - vm_compute. discriminate.
  - vm_compute. discriminate.
  - reflexivity.
  - reflexivity.
  - split_and!.
    + rewrite Hdata. reflexivity.
    + rewrite Hitems. reflexivity.
    + reflexivity.
Defined.

(** ** The statistics of the list endpoint *)

(** C10: the [stats] of the list response are counted on the whole store;
    no part of the query reaches them, so they are those of the request
    without a query string. *)
Theorem list_stats_ignore_query `{Validator} st q :
  stats (listFeedback q st) = stats (listFeedback defaultQuery st) ∧
  stats (listFeedback q st)
    = mkListStats (length (feedback st))
        (countStatus "pending" (feedback st))
        (countStatus "reviewed" (feedback st))
        (countStatus "resolved" (feedback st)).
Proof. done. Qed.

(** ** Sorting and ties *)

(** The comparator has no answer for "equal": it returns 1 or -1. *)
Lemma compareFeedback_values `{Validator} sort order a b :
  compareFeedback sort order a b = 1%Z ∨ compareFeedback sort order a b = (-1)%Z.
Proof.
  unfold compareFeedback.
  destruct (decide (sort = "createdAt" ∨ sort = "updatedAt"));
    destruct (decide (order = "desc")); destruct (js_gt _ _); auto.
Qed.

(** [x > x] is false: for a number, a timestamp and [undefined] always,
    for a value of a body when the engine says so. *)
Lemma js_gt_irrefl `{Validator} v :
  (∀ w, v = VJson w → greater w w = false) → js_gt v v = false.
Proof.
  intros Hv. destruct v as [|n|w|ms]; simpl; [done|apply Z.ltb_irrefl| |apply Z.ltb_irrefl].
  by apply Hv.
Qed.

(** On two records with the same value in the sort field the comparator
    answers "less" in both directions. *)
Lemma compareFeedback_tie `{Validator} sort order a b :
  getField a sort = getField b sort →
  (∀ w, getField a sort = VJson w → greater w w = false) →
  compareFeedback sort order a b = (-1)%Z ∧ compareFeedback sort order b a = (-1)%Z.
Proof.
  unfold compareFeedback. intros <- Hirr.
  assert (js_gt (toDate (getField a sort)) (toDate (getField a sort)) = false) as Hdate.
  { apply js_gt_irrefl. intros w Hw. apply Hirr. by destruct (getField a sort). }
  destruct (decide (sort = "createdAt" ∨ sort = "updatedAt"));
    destruct (decide (order = "desc")); by rewrite ?Hdate, ?js_gt_irrefl.
Qed.

Section AllTies.
Context {A : Type} (comparefn : A → A → Z).

Lemma runTail_negative previous (rest : list A) :
  (∀ a b, a ∈ previous :: rest → b ∈ previous :: rest → (comparefn a b < 0)%Z) →
  runTail comparefn true previous rest = length rest.
Proof.
  revert previous. induction rest as [|x rest IH]; intros previous Hneg; [done|].
  simpl. destruct (Z.ltb_spec (comparefn x previous) 0) as [_|Hge].
  - rewrite IH; [done|]. intros a b Ha Hb. apply Hneg; by apply list_elem_of_further.
  - assert (comparefn x previous < 0)%Z; [|lia].
    apply Hneg; [apply list_elem_of_further|]; apply list_elem_of_here.
Qed.

(** When the comparator answers "less" on every pair of its elements,
    the array is one descending run for the engine, which reverses it. *)
Lemma arraySort_negative (l : list A) :
  (∀ a b, a ∈ l → b ∈ l → (comparefn a b < 0)%Z) →
  arraySort comparefn l = reverse l.
Proof.
  intros Hneg. destruct l as [|x [|y l]]; [done..|].
  unfold arraySort, countAndMakeRun.
  replace (length (x :: y :: l) <? 2)%nat with false by done.
  destruct (Z.ltb_spec (comparefn y x) 0) as [_|Hge].
  - rewrite runTail_negative.
    + replace (2 + length l)%nat with (length (x :: y :: l)) by done.
      rewrite Nat.sub_diag, firstn_all, drop_all, app_nil_r. done.
    + intros a b Ha Hb. apply Hneg; by apply list_elem_of_further.
  - assert (comparefn y x < 0)%Z; [|lia].
    apply Hneg; [apply list_elem_of_further|]; apply list_elem_of_here.
Qed.
End AllTies.


(** Sorting by a field in which all records of the array agree returns
    the array reversed, whatever the direction. *)
Lemma arraySort_all_tied `{Validator} sort order (l : list Feedback) :
  (∀ a b, a ∈ l → b ∈ l → getField a sort = getField b sort) →
  (∀ a w, a ∈ l → getField a sort = VJson w → greater w w = false) →
  arraySort (compareFeedback sort order) l = reverse l.
Proof.
  intros Htied Hirr. apply arraySort_negative. intros a b Ha Hb.
  destruct (compareFeedback_tie sort order a b (Htied a b Ha Hb)
              (λ w, Hirr a w Ha)) as [-> _].
  lia.
Qed.

(** C1, at failing inputs: two records created in this order are stored
    newest first, ids 2 and 1.  Both are pending, and sorting by [status]
    returns them as 1, 2 in either direction; when both were created in
    the same millisecond the default sort (by [createdAt], descending)
    returns them as 1, 2 as well.  Records that tie on the sort key come
    back in the reverse of their storage order. *)
Theorem sort_reverses_ties :
  let run := serve (H := sampleValidator)
               [Create sampleBody 1000 1000; Create otherBody 2000 2000]
               initialStore in
  let same := serve (H := sampleValidator)
                [Create sampleBody 1000 1000; Create otherBody 1000 1000]
                initialStore in
  let byStatus order := mkQuery None None None None None (Some "status") (Some order) in
  (id <$> feedback run.2) = [2; 1]%Z ∧
  (status <$> feedback run.2) = [JString "pending"; JString "pending"] ∧
  (id <$> data (listFeedback (H := sampleValidator) (byStatus "asc") run.2)) = [1; 2]%Z ∧
  (id <$> data (listFeedback (H := sampleValidator) (byStatus "desc") run.2)) = [1; 2]%Z ∧
  (id <$> feedback same.2) = [2; 1]%Z ∧
  (createdAt <$> feedback same.2) = [1000; 1000]%Z ∧
  (id <$> data (listFeedback (H := sampleValidator) defaultQuery same.2)) = [1; 2]%Z.
Proof. intros run same byStatus. by vm_compute. Qed.

(** A status that is not a string: three records are given the statuses
    ["a"], [5] and ["b"] by updates.  Neither ["a" > 5] nor [5 > "b"]
    holds, nor the converse of either, so the comparator answers "less"
    wherever the sort asks, in both directions: the three records are
    listed as ["b"], [5], ["a"] either way, which is no order of the
    keys. *)
Example sort_by_status_of_mixed_kinds :
  let st := (serve (H := sampleValidator)
               [Create sampleBody 1000 1000; Create otherBody 2000 2000;
                Create thirdBody 3000 3000;
                Update 3 [("status", "a")] 4000;
                Update 2 [("status", JOther "5")] 4000;
                Update 1 [("status", "b")] 4000] initialStore).2 in
  let byStatus order := mkQuery None None None None None (Some "status") (Some order) in
  let listed order := data (listFeedback (H := sampleValidator) (byStatus order) st) in
  (status <$> feedback st) = [JString "a"; JOther "5"; JString "b"] ∧
  (status <$> listed "asc") = [JString "b"; JOther "5"; JString "a"] ∧
  (status <$> listed "desc") = [JString "b"; JOther "5"; JString "a"] ∧
  ¬ StronglySorted (keyLe (H := sampleValidator) "status") (listed "asc").
Proof.
  intros st byStatus listed. split_and!; [by vm_compute..|].
  intros [_ Hfirst]%StronglySorted_inv.
  apply Forall_cons_1 in Hfirst as [_ [Hlast _]%Forall_cons_1].
  by vm_compute in Hlast.
Qed.

(** ** Sorting sorts *)

Lemma StronglySorted_lookup {A} (R : relation A) (l : list A) i j a b :
  StronglySorted R l → i < j → l !! i = Some a → l !! j = Some b → R a b.
Proof.
  intros Hl. revert i j. induction Hl as [|x l _ IH Hx]; intros i j Hij Hi Hj; [done|].
  destruct j as [|j]; [lia|]. destruct i as [|i]; simpl in *.
  - simplify_eq. eapply (proj1 (list.Forall_forall _ _) Hx).
    by eapply list_elem_of_lookup_2.
  - apply (IH i j); [lia|done..].
Qed.

Section SortedResult.
Context {A : Type} (comparefn : A → A → Z) (le : relation A).
Context `{!Transitive le}.
Hypothesis le_total : ∀ a b, le a b ∨ le b a.
Hypothesis comparefn_le : ∀ a b, (comparefn a b < 0)%Z ↔ le a b.

Lemma runTail_le_length isDescending previous (rest : list A) :
  runTail comparefn isDescending previous rest ≤ length rest.
Proof.
  revert previous. induction rest as [|x rest IH]; intros previous; simpl; [done|].
  destruct isDescending, (_ <? _)%Z; try lia; specialize (IH x); lia.
Qed.

Lemma runTail_ascending previous (rest : list A) :
  Sorted le (previous :: take (runTail comparefn false previous rest) rest).
Proof.
  revert previous. induction rest as [|x rest IH]; intros previous; simpl.
  { repeat constructor. }
  destruct (Z.ltb_spec (comparefn x previous) 0) as [Hlt|Hge]; simpl.
  { repeat constructor. }
  constructor; [apply IH|]. constructor.
  destruct (le_total previous x) as [?|Hle]; [done|].
  apply comparefn_le in Hle. lia.
Qed.

Lemma runTail_descending previous (rest : list A) :
  Sorted (flip le) (previous :: take (runTail comparefn true previous rest) rest).
Proof.
  revert previous. induction rest as [|x rest IH]; intros previous; simpl.
  { repeat constructor. }
  destruct (Z.ltb_spec (comparefn x previous) 0) as [Hlt|Hge]; simpl.
  - constructor; [apply IH|]. constructor. by apply comparefn_le.
  - repeat constructor.
Qed.

(** The run [countAndMakeRun] reports is ascending when it returns. *)
Lemma countAndMakeRun_sorted (l : list A) :
  let '(runLength, work) := countAndMakeRun comparefn l in
  runLength ≤ length l ∧ StronglySorted le (take runLength work).
Proof.
  destruct l as [|x [|y rest]].
  { split; [done|constructor]. }
  { split; [done|]. repeat constructor. }
  unfold countAndMakeRun.
  pose proof (runTail_le_length (comparefn y x <? 0)%Z y rest) as Hlen.
  assert (take (2 + runTail comparefn (comparefn y x <? 0)%Z y rest) (x :: y :: rest)
          = x :: y :: take (runTail comparefn (comparefn y x <? 0)%Z y rest) rest)
    as Hrun by done.
  assert (2 + runTail comparefn (comparefn y x <? 0)%Z y rest
          ≤ length (x :: y :: rest)) as Hn by (simpl; lia).
  revert Hrun Hn.
  generalize (2 + runTail comparefn (comparefn y x <? 0)%Z y rest).
  intros n Hrun Hn.
  destruct (Z.ltb_spec (comparefn y x) 0) as [Hlt|Hge].
  - split; [done|].
    rewrite take_app_length' by (rewrite length_reverse, length_take; lia).
    rewrite Hrun.
    apply Sorted_StronglySorted; [done|].
    apply (Sorted_reverse (flip le)).
    constructor; [apply runTail_descending|]. constructor. by apply comparefn_le.
  - split; [done|]. rewrite Hrun.
    apply Sorted_StronglySorted; [done|].
    constructor; [apply runTail_ascending|]. constructor.
    destruct (le_total x y) as [?|Hle]; [done|].
    apply comparefn_le in Hle. lia.
Qed.

(** The bisection returns a position such that the sorted prefix holds
    elements not above the pivot before it and elements not below the
    pivot from it on. *)
Lemma insertionPoint_sorted fuel (work : list A) pivot start left right :
  StronglySorted le (take start work) → start ≤ length work →
  left ≤ right ≤ start → right - left ≤ fuel →
  (∀ i e, i < left → work !! i = Some e → le e pivot) →
  (∀ i e, right ≤ i < start → work !! i = Some e → le pivot e) →
  let p := insertionPoint comparefn fuel work pivot left right in
  left ≤ p ≤ right ∧
  (∀ i e, i < p → work !! i = Some e → le e pivot) ∧
  (∀ i e, p ≤ i < start → work !! i = Some e → le pivot e).
Proof.
  intros Hsorted Hstart. revert left right.
  induction fuel as [|fuel IH]; intros left right Hlr Hfuel Hbelow Habove;
    cbn [insertionPoint].
  { assert (left = right) as -> by lia. split; [lia|by split]. }
  destruct (Nat.ltb_spec left right) as [Hlt|Hge].
  2:{ assert (left = right) as -> by lia. split; [lia|by split]. }
  assert ((right - left) / 2 < right - left) as Hhalf by (apply Nat.div_lt; lia).
  generalize dependent ((right - left) / 2). intros half Hhalf.
  destruct (lookup_lt_is_Some_2 work (left + half)) as [element Hmid]; [lia|].
  rewrite Hmid.
  assert (∀ i j a b, i < j < start → work !! i = Some a → work !! j = Some b → le a b)
    as Hsort.
  { intros i j a b Hij Hi Hj.
    apply (StronglySorted_lookup le (take start work) i j); [done|lia|..];
      by rewrite lookup_take_lt by lia. }
  destruct (Z.ltb_spec (comparefn pivot element) 0) as [Hneg|Hpos]; cbv iota zeta.
  - destruct (IH left (left + half)) as (Hp & Hb & Ha); [lia|lia|done| |].
    + intros i e Hi He. destruct (decide (i = left + half)) as [->|Hne].
      * simplify_eq. by apply comparefn_le.
      * etrans; [by apply comparefn_le|]. apply (Hsort (left + half) i); [lia|done..].
    + split; [lia|by split].
  - destruct (IH (left + half + 1) right) as (Hp & Hb & Ha); [lia|lia| |done|].
    + assert (le element pivot) as Hle.
      { destruct (le_total element pivot) as [?|Hle]; [done|].
        apply comparefn_le in Hle. lia. }
      intros i e Hi He. destruct (decide (i = left + half)) as [->|Hne].
      * by simplify_eq.
      * etrans; [|exact Hle]. apply (Hsort i (left + half)); [lia|done..].
    + split; [lia|by split].
Qed.

(** Putting the pivot at the position found keeps the prefix sorted. *)
Lemma insert_at_sorted (work : list A) pivot start p :
  StronglySorted le (take start work) → work !! start = Some pivot → p ≤ start →
  (∀ i e, i < p → work !! i = Some e → le e pivot) →
  (∀ i e, p ≤ i < start → work !! i = Some e → le pivot e) →
  let work' := take p work ++ pivot :: take (start - p) (drop p work)
                 ++ drop (S start) work in
  length work' = length work ∧ StronglySorted le (take (S start) work').
Proof.
  intros Hsorted Hpivot Hp Hbelow Habove work'.
  pose proof (lookup_lt_Some _ _ _ Hpivot) as Hlen.
  assert (take start work = take p work ++ take (start - p) (drop p work)) as Hsplit.
  { rewrite take_take_drop. f_equal. lia. }
  split.
  - unfold work'. rewrite !length_app, length_cons, !length_app, !length_take,
      !length_drop. lia.
  - replace work' with
      ((take p work ++ pivot :: take (start - p) (drop p work)) ++ drop (S start) work)
      by (by rewrite <-(assoc_L (++))).
    rewrite take_app_length'.
    2:{ rewrite length_app, length_cons, !length_take, length_drop. lia. }
    rewrite Hsplit in Hsorted. apply StronglySorted_app in Hsorted as (Hcross & H1 & H2).
    apply StronglySorted_app. split_and!; [|done|].
    + intros x1 x2 Hx1 [->|Hx2]%elem_of_cons; [|by apply Hcross].
      apply list_elem_of_lookup in Hx1 as [i Hi].
      pose proof (lookup_lt_Some _ _ _ Hi) as Hlt. rewrite length_take in Hlt.
      rewrite lookup_take_lt in Hi by lia. apply (Hbelow i); [lia|done].
    + constructor; [done|]. apply list.Forall_forall. intros x Hx.
      apply list_elem_of_lookup in Hx as [i Hi].
      pose proof (lookup_lt_Some _ _ _ Hi) as Hlt.
      rewrite length_take, length_drop in Hlt.
      rewrite lookup_take_lt, lookup_drop in Hi by lia.
      apply (Habove (p + i)); [lia|done].
Qed.

Lemma binaryInsertionSort_sorted count (work : list A) start :
  StronglySorted le (take start work) → start ≤ length work →
  count = length work - start →
  StronglySorted le (binaryInsertionSort comparefn count work start).
Proof.
  revert work start. induction count as [|count IH]; intros work start Hsorted Hstart Hcount.
  { simpl. by rewrite take_ge in Hsorted by lia. }
  cbn [binaryInsertionSort].
  destruct (lookup_lt_is_Some_2 work start) as [pivot Hpivot]; [lia|].
  rewrite Hpivot.
  destruct (insertionPoint_sorted start work pivot start 0 start)
    as (Hp & Hbelow & Habove); [done|lia|lia|lia|intros; lia|intros; lia|].
  destruct (insert_at_sorted work pivot start _ Hsorted Hpivot (proj2 Hp) Hbelow Habove)
    as [Hlen Hsorted'].
  apply IH; [done|lia|lia].
Qed.

(** The result of the sort is ascending for the order the comparator
    stands for. *)
Lemma arraySort_sorted (l : list A) : StronglySorted le (arraySort comparefn l).
Proof.
  unfold arraySort. destruct (Nat.ltb_spec (length l) 2) as [Hshort|Hlong].
  { destruct l as [|x [|y l]]; [constructor|repeat constructor|simpl in *; lia]. }
  pose proof (countAndMakeRun_sorted l) as Hrun.
  pose proof (countAndMakeRun_perm comparefn l) as [_ Hlen].
  destruct (countAndMakeRun comparefn l) as [n work]. destruct Hrun as [Hn Hsorted].
  simpl in Hlen. apply binaryInsertionSort_sorted; [done|lia|lia].
Qed.
End SortedResult.


Lemma StronglySorted_impl_in {A} (R R' : relation A) (l : list A) :
  (∀ a b, a ∈ l → b ∈ l → R a b → R' a b) → StronglySorted R l → StronglySorted R' l.
Proof.
  intros HR Hl. induction Hl as [|x l _ IH Hx]; [constructor|].
  constructor.
  - apply IH. intros a b Ha Hb. apply HR; by apply list_elem_of_further.
  - apply list.Forall_forall. intros y Hy. apply HR;
      [apply list_elem_of_here|by apply list_elem_of_further|].
    by apply (proj1 (list.Forall_forall _ _) Hx).
Qed.

Lemma NoDup_fmap_eq {A B} (f : A → B) (l : list A) x y :
  NoDup (f <$> l) → x ∈ l → y ∈ l → f x = f y → x = y.
Proof.
  induction l as [|z l IH]; [by intros _ ?%not_elem_of_nil|].
  rewrite fmap_cons, NoDup_cons.
  intros [Hz Hl] [->|Hx]%elem_of_cons [->|Hy]%elem_of_cons Hf; [done| | |by apply IH].
  - destruct Hz. rewrite Hf. by apply list_elem_of_fmap_2.
  - destruct Hz. rewrite <-Hf. by apply list_elem_of_fmap_2.
Qed.

(** *** The sort looks at the comparator on the elements of the array only *)

Section ArraySortExt.
Context {A : Type} (f g : A → A → Z) (P : A → Prop).
Hypothesis f_g : ∀ a b, P a → P b → f a b = g a b.

Lemma runTail_ext isDescending previous (rest : list A) :
  P previous → Forall P rest →
  runTail f isDescending previous rest = runTail g isDescending previous rest.
Proof.
  intros Hp Hrest. revert previous Hp.
  induction Hrest as [|x rest Hx _ IH]; intros previous Hp; [done|].
  simpl. rewrite f_g by done. by rewrite IH.
Qed.

Lemma countAndMakeRun_ext (l : list A) :
  Forall P l → countAndMakeRun f l = countAndMakeRun g l.
Proof.
  intros Hl. destruct l as [|x [|y rest]]; [done..|].
  apply Forall_cons_1 in Hl as [Hx [Hy Hrest]%Forall_cons_1].
  unfold countAndMakeRun. by rewrite f_g, runTail_ext.
Qed.

Lemma insertionPoint_ext fuel (work : list A) pivot (left right : nat) :
  P pivot → Forall P work →
  insertionPoint f fuel work pivot left right
    = insertionPoint g fuel work pivot left right.
Proof.
  intros Hp Hwork. revert left right.
  induction fuel as [|fuel IH]; intros left right; cbn [insertionPoint]; [done|].
  destruct (left <? right)%nat; [|done].
  destruct (work !! _) as [element|] eqn:Hmid; [|done].
  rewrite f_g; [|done|by eapply (Forall_lookup_1 _ _ _ _ Hwork)].
  by rewrite !IH.
Qed.

Lemma binaryInsertionSort_ext count (work : list A) start :
  Forall P work →
  binaryInsertionSort f count work start = binaryInsertionSort g count work start.
Proof.
  revert work start. induction count as [|count IH]; intros work start Hwork; [done|].
  cbn [binaryInsertionSort].
  destruct (work !! start) as [pivot|] eqn:Hpivot; [|done].
  assert (P pivot) as Hp by (by eapply (Forall_lookup_1 _ _ _ _ Hwork)).
  rewrite (insertionPoint_ext start work pivot 0 start) by done.
  apply IH.
  assert (take (insertionPoint g start work pivot 0 start) work
            ++ pivot :: take (start - insertionPoint g start work pivot 0 start)
                          (drop (insertionPoint g start work pivot 0 start) work)
            ++ drop (S start) work ≡ₚ work) as ->; [|done].
  apply insert_at_perm; [done|]. apply insertionPoint_bounds. lia.
Qed.

Lemma arraySort_ext (l : list A) : Forall P l → arraySort f l = arraySort g l.
Proof.
  intros Hl. unfold arraySort. destruct (_ <? _)%nat; [done|].
  rewrite countAndMakeRun_ext by done.
  destruct (countAndMakeRun_perm g l) as [Hperm _].
  destruct (countAndMakeRun g l) as [n work]. simpl in Hperm.
  apply binaryInsertionSort_ext. by rewrite Hperm.
Qed.
End ArraySortExt.

(** *** Sorting by the time of creation *)

Lemma compareFeedback_createdAt_desc `{Validator} a b :
  (compareFeedback "createdAt" "desc" a b < 0)%Z ↔ (createdAt b ≤ createdAt a)%Z.
Proof.
  unfold compareFeedback. simpl.
  destruct (Z.ltb_spec (createdAt a) (createdAt b)); split; lia.
Qed.

(** The default sort puts the records in descending order of their time
    of creation. *)
Lemma arraySort_createdAt_desc `{Validator} (l : list Feedback) :
  StronglySorted (λ a b, (createdAt b ≤ createdAt a)%Z)
    (arraySort (compareFeedback "createdAt" "desc") l).
Proof.
  apply arraySort_sorted.
  - intros a b c ??. lia.
  - intros a b. lia.
  - apply compareFeedback_createdAt_desc.
Qed.

(** *** The comparator as an order on keys *)

Lemma compareFeedback_sortKey `{Validator} sort order a b :
  compareFeedback sort order a b =
    if decide (order = "desc")
    then (if js_gt (sortKey sort b) (sortKey sort a) then 1 else -1)%Z
    else (if js_gt (sortKey sort a) (sortKey sort b) then 1 else -1)%Z.
Proof. unfold compareFeedback, sortKey. by repeat case_decide. Qed.

Lemma plainSortKey_plain sort a : plainKey (sortKey sort a) → plainSortKey sort a = sortKey sort a.
Proof. unfold plainSortKey. by destruct (sortKey sort a) as [| |[|]|]. Qed.

(** On keys that are plain the comparator is the comparator of the keys
    made plain. *)
Lemma compareFeedback_plain `{Validator} sort order a b :
  plainKey (sortKey sort a) → plainKey (sortKey sort b) →
  compareFeedback sort order a b = comparePlain sort order a b.
Proof.
  intros Ha Hb. rewrite compareFeedback_sortKey. unfold comparePlain.
  by rewrite !plainSortKey_plain.
Qed.

Lemma plainSortKey_sameKind sort a b :
  sameKind (plainSortKey sort a) (plainSortKey sort b).
Proof.
  unfold plainSortKey, sortKey, getField.
  repeat case_decide; simpl; try done;
    first [by destruct (priority a), (priority b)|by destruct (status a), (status b)].
Qed.

(** The strings of the examples are ordered. *)
Lemma sampleValidator_stringsOrdered : stringsOrdered (H := sampleValidator).
Proof.
  assert (∀ s t : string, String.ltb t s = false ↔ String.leb s t = true) as Hleb.
  { intros s t. unfold String.ltb, String.leb. rewrite (String.compare_antisym t s).
    by destruct (s ?= t)%string. }
  unfold stringsOrdered. simpl. split_and!.
  - intros s t Hst. apply Hleb. destruct (String.leb_total s t) as [Hle|Hle]; [|done].
    apply Hleb in Hle. congruence.
  - intros s t Hst Hts. apply Hleb in Hst, Hts. by apply String.leb_antisym.
  - intros s t u Hst Htu. apply Hleb in Hst, Htu. apply Hleb.
    apply Is_true_true. etrans; by apply Is_true_true.
Qed.

Section KeyOrder.
Context `{Validator}.
Hypothesis strings_ordered : stringsOrdered.

Lemma js_gt_total x y : sameKind x y → js_gt x y = false ∨ js_gt y x = false.
Proof.
  destruct strings_ordered as (Hasym & _ & _).
  destruct x as [|m|[s|]|m], y as [|n|[t|]|n]; simpl; try done; auto.
  - intros _. destruct (Z.ltb_spec n m), (Z.ltb_spec m n); auto; lia.
  - intros _. destruct (greater s t) eqn:Hst; [|by left]. right. by apply Hasym.
  - intros _. destruct (Z.ltb_spec n m), (Z.ltb_spec m n); auto; lia.
Qed.

Lemma js_gt_trans x y z :
  sameKind x y → sameKind y z →
  js_gt x y = false → js_gt y z = false → js_gt x z = false.
Proof.
  destruct strings_ordered as (_ & _ & Htrans).
  destruct x as [|m|[s|]|m], y as [|n|[t|]|n], z as [|k|[u|]|k]; simpl; try done.
  - intros _ _ ?%Z.ltb_ge ?%Z.ltb_ge. apply Z.ltb_ge. lia.
  - intros _ _. apply Htrans.
  - intros _ _ ?%Z.ltb_ge ?%Z.ltb_ge. apply Z.ltb_ge. lia.
Qed.

Lemma js_gt_antisym x y :
  sameKind x y → js_gt x y = false → js_gt y x = false → x = y.
Proof.
  destruct strings_ordered as (_ & Hanti & _).
  destruct x as [|m|[s|]|m], y as [|n|[t|]|n]; simpl; try done.
  - intros _ ?%Z.ltb_ge ?%Z.ltb_ge. f_equal. lia.
  - intros _ Hst Hts. do 2 f_equal. by apply Hanti.
  - intros _ ?%Z.ltb_ge ?%Z.ltb_ge. f_equal. lia.
Qed.

Lemma plainLe_trans sort : Transitive (plainLe sort).
Proof.
  intros a b c. unfold plainLe. apply js_gt_trans; apply plainSortKey_sameKind.
Qed.

Lemma plainLe_total sort a b : plainLe sort a b ∨ plainLe sort b a.
Proof. apply js_gt_total, plainSortKey_sameKind. Qed.

Lemma comparePlain_asc sort order a b :
  order ≠ "desc" → (comparePlain sort order a b < 0)%Z ↔ plainLe sort a b.
Proof.
  intros Horder. unfold comparePlain, plainLe. rewrite decide_False by done.
  destruct (js_gt _ _); split; (done || lia).
Qed.

Lemma comparePlain_desc sort a b :
  (comparePlain sort "desc" a b < 0)%Z ↔ flip (plainLe sort) a b.
Proof.
  unfold comparePlain, flip, plainLe. rewrite decide_True by done.
  destruct (js_gt _ _); split; (done || lia).
Qed.

Lemma plainLe_keyLe sort a b :
  plainKey (sortKey sort a) → plainKey (sortKey sort b) →
  plainLe sort a b → keyLe sort a b.
Proof. intros Ha Hb. unfold plainLe, keyLe. by rewrite !plainSortKey_plain. Qed.

(** Where every key is plain, the result is ascending in the sort key in
    ascending direction and descending in descending direction. *)
Lemma arraySort_ascending sort order (l : list Feedback) :
  Forall (λ a, plainKey (sortKey sort a)) l → order ≠ "desc" →
  StronglySorted (keyLe sort) (arraySort (compareFeedback sort order) l).
Proof.
  intros Hplain Horder.
  rewrite (arraySort_ext _ (comparePlain sort order) _
             (λ a b, compareFeedback_plain sort order a b) l Hplain).
  apply (StronglySorted_impl_in (plainLe sort)).
  - intros a b Ha Hb. rewrite arraySort_perm in Ha, Hb.
    apply plainLe_keyLe; by apply (proj1 (list.Forall_forall _ _) Hplain).
  - apply arraySort_sorted; [apply plainLe_trans|apply plainLe_total|].
    intros a b. by apply comparePlain_asc.
Qed.

Lemma arraySort_descending sort (l : list Feedback) :
  Forall (λ a, plainKey (sortKey sort a)) l →
  StronglySorted (flip (keyLe sort)) (arraySort (compareFeedback sort "desc") l).
Proof.
  intros Hplain.
  rewrite (arraySort_ext _ (comparePlain sort "desc") _
             (λ a b, compareFeedback_plain sort "desc" a b) l Hplain).
  apply (StronglySorted_impl_in (flip (plainLe sort))).
  - intros a b Ha Hb. rewrite arraySort_perm in Ha, Hb.
    apply plainLe_keyLe; by apply (proj1 (list.Forall_forall _ _) Hplain).
  - apply arraySort_sorted; [|intros a b; apply plainLe_total|apply comparePlain_desc].
    intros a b c ??. by eapply plainLe_trans.
Qed.

(** When the keys are plain and no two records of the array have the
    same sort key, sorting in descending direction returns the reverse of
    sorting in ascending direction. *)
Lemma sort_directions_reverse sort order (l : list Feedback) :
  Forall (λ a, plainKey (sortKey sort a)) l →
  order ≠ "desc" → NoDup (sortKey sort <$> l) →
  arraySort (compareFeedback sort "desc") l
    = reverse (arraySort (compareFeedback sort order) l).
Proof.
  intros Hplain Horder Hkeys.
  rewrite !(arraySort_ext _ (comparePlain sort _) _
              (λ a b, compareFeedback_plain sort _ a b) l Hplain).
  assert (Transitive (flip (plainLe sort))) as Htrans.
  { intros a b c ??. by eapply plainLe_trans. }
  apply (StronglySorted_unique_strong (flip (plainLe sort))).
  - intros a b Ha Hb Hab Hba. rewrite arraySort_perm in Ha.
    rewrite reverse_Permutation, arraySort_perm in Hb.
    apply (NoDup_fmap_eq (sortKey sort) l); [done..|].
    rewrite <-!plainSortKey_plain
      by (by apply (proj1 (list.Forall_forall _ _) Hplain)).
    apply js_gt_antisym; [apply plainSortKey_sameKind|exact Hba|exact Hab].
  - apply arraySort_sorted; [done|intros a b; apply plainLe_total|apply comparePlain_desc].
  - apply Sorted_StronglySorted; [done|].
    apply Sorted_reverse, StronglySorted_Sorted.
    apply arraySort_sorted; [apply plainLe_trans|apply plainLe_total|].
    intros a b. by apply comparePlain_asc.
  - by rewrite reverse_Permutation, !arraySort_perm.
Qed.
End KeyOrder.

Lemma applyFilter_sublist v field (l : list Feedback) :
  applyFilter v field l `sublist_of` l.
Proof. rewrite applyFilter_constraint. apply sublist_filter. Qed.

(** ** The most common type *)

Lemma countTypes_snoc (l : list Feedback) f :
  countTypes (l ++ [f]) = increment (type f) (countTypes l).
Proof. unfold countTypes. by rewrite foldl_app. Qed.

Lemma countType_snoc t (l : list Feedback) f :
  countType t (l ++ [f]) = (countType t l + if decide (type f = t) then 1 else 0)%nat.
Proof.
  unfold countType. rewrite list.filter_app, length_app, filter_cons, filter_nil.
  by case_decide.
Qed.

Lemma typeCount_increment t t' (acc : TypeCounts) :
  typeCount t (increment t' acc) =
    if decide (t' = t) then Some (default 0 (typeCount t acc) + 1)%nat
    else typeCount t acc.
Proof.
  induction acc as [|[k n] acc IH]; simpl.
  - by repeat case_decide.
  - repeat (case_decide; simpl; simplify_eq); try done; by rewrite IH; case_decide.
Qed.

Lemma keys_increment t (acc : TypeCounts) :
  (increment t acc).*1 = if decide (t ∈ acc.*1) then acc.*1 else acc.*1 ++ [t].
Proof.
  induction acc as [|[k n] acc IH]; [done|].
  cbn [increment]. destruct (decide (k = t)) as [->|Hne]; rewrite !fmap_cons; cbn [fst].
  - rewrite decide_True; [done|]. apply list_elem_of_here.
  - rewrite IH. destruct (decide (t ∈ acc.*1)) as [Hin|Hnin].
    + rewrite decide_True; [done|]. by apply list_elem_of_further.
    + rewrite decide_False; [done|]. by intros [?|?]%elem_of_cons.
Qed.

(** [typeCounts[t]] is the number of records of type [t], and [undefined]
    when there is none. *)
Lemma typeCount_countTypes t (l : list Feedback) :
  typeCount t (countTypes l) =
    if decide (countType t l = 0) then None else Some (countType t l).
Proof.
  induction l as [|f l IH] using rev_ind; [done|].
  rewrite countTypes_snoc, typeCount_increment, countType_snoc, IH.
  repeat case_decide; simpl; try done; try lia; f_equal; lia.
Qed.

Lemma elem_of_keys_countTypes t (l : list Feedback) :
  t ∈ (countTypes l).*1 ↔ ∃ f, f ∈ l ∧ type f = t.
Proof.
  induction l as [|f l IH] using rev_ind.
  - split; [by intros ?%not_elem_of_nil|by intros (? & ?%not_elem_of_nil & _)].
  - rewrite countTypes_snoc, keys_increment.
    setoid_rewrite elem_of_app. setoid_rewrite list_elem_of_singleton.
    case_decide as Hin.
    + rewrite IH. split; [intros (g & Hg & Ht); by eauto|].
      intros (g & [Hg| ->] & Ht); [by eauto|]. subst t. by apply IH.
    + rewrite elem_of_app, list_elem_of_singleton, IH. split.
      * intros [(g & Hg & Ht)| ->]; by eauto.
      * intros (g & [Hg| ->] & Ht); by eauto.
Qed.

(** The keys are in the order in which the types are first met: a key [r]
    stands behind the keys [K1] exactly when the first record of type [r]
    stands behind a record of each type in [K1]. *)
Lemma keys_countTypes_order (l : list Feedback) K1 r K2 :
  (countTypes l).*1 = K1 ++ r :: K2 →
  ∃ l1 f l2, l = l1 ++ f :: l2 ∧ type f = r ∧
    (∀ g, g ∈ l1 → type g ≠ r) ∧
    (∀ t, t ∈ K1 → ∃ g, g ∈ l1 ∧ type g = t).
Proof.
  revert K2. induction l as [|f l IH] using rev_ind; intros K2 HK.
  { by destruct K1. }
  rewrite countTypes_snoc, keys_increment in HK. case_decide as Hin.
  - destruct (IH K2 HK) as (l1 & f0 & l2 & -> & ? & ? & ?).
    exists l1, f0, (l2 ++ [f]). by rewrite <-(assoc_L (++)).
  - destruct K2 as [|k K2 _] using rev_ind.
    + apply app_inj_tail in HK as [HK <-].
      exists l, f, []. split_and!; [done..| |].
      * intros g Hg Ht. apply Hin, elem_of_keys_countTypes. eauto.
      * intros t Ht. apply elem_of_keys_countTypes. by rewrite HK.
    + rewrite app_comm_cons, (assoc_L (++)) in HK.
      apply app_inj_tail in HK as [HK _].
      destruct (IH K2 HK) as (l1 & f0 & l2 & -> & ? & ? & ?).
      exists l1, f0, (l2 ++ [f]). by rewrite <-(assoc_L (++)).
Qed.

Section LastMaximum.
Context {K : Type} (c : K → nat).

(** The reduce returns an element of greatest count, and every element
    behind it in the list has a smaller count. *)
Lemma foldl_keepGreater a0 (keys : list K) :
  let r := foldl (keepGreater c) a0 keys in
  (c a0 ≤ c r)%nat ∧ (∀ b, b ∈ keys → (c b ≤ c r)%nat) ∧
  ((r = a0 ∧ ∀ b, b ∈ keys → (c b < c a0)%nat) ∨
   ∃ K1 K2, keys = K1 ++ r :: K2 ∧ ∀ b, b ∈ K2 → (c b < c r)%nat).
Proof.
  revert a0. induction keys as [|b keys IH]; intros a0; simpl.
  { split_and!; [done|by intros ? ?%not_elem_of_nil|].
    left. split; [done|by intros ? ?%not_elem_of_nil]. }
  assert (keepGreater c a0 b = a0 ∧ (c b < c a0)%nat ∨
          keepGreater c a0 b = b ∧ (c a0 ≤ c b)%nat) as Hk.
  { unfold keepGreater. destruct (Nat.ltb_spec (c b) (c a0)); auto. }
  destruct (IH (keepGreater c a0 b)) as (Hge & Hall & Hlast).
  destruct Hk as [[Hk Hc]|[Hk Hc]]; rewrite Hk in *;
    [set (r := foldl (keepGreater c) a0 keys) in *
    |set (r := foldl (keepGreater c) b keys) in *].
  - split_and!; [done| |].
    + intros b' [->|Hin]%elem_of_cons; [lia|by apply Hall].
    + destruct Hlast as [[Hr Hsmall]|(K1 & K2 & Hkeys & Hsmall)].
      * left. split; [done|].
        intros b' [->|Hin]%elem_of_cons; [done|by apply Hsmall].
      * right. exists (b :: K1), K2. split; [|done]. simpl. by f_equal.
  - split_and!; [lia| |].
    + intros b' [->|Hin]%elem_of_cons; [done|by apply Hall].
    + right. destruct Hlast as [[Hr Hsmall]|(K1 & K2 & Hkeys & Hsmall)].
      * exists [], keys. by rewrite Hr.
      * exists (b :: K1), K2. split; [|done]. simpl. by f_equal.
Qed.
End LastMaximum.

Lemma foldl_ext_in {A B} (f g : A → B → A) a (l : list B) :
  (∀ x b, b ∈ l → f x b = g x b) → foldl f a l = foldl g a l.
Proof.
  revert a. induction l as [|b l IH]; intros a Hfg; [done|].
  simpl. rewrite Hfg by apply list_elem_of_here.
  apply IH. intros x b' Hb'. by apply Hfg, list_elem_of_further.
Qed.

(** The reduce of [getMostCommonType] keeps the type with the greater
    number of records. *)
Lemma getMostCommonType_keepGreater st :
  getMostCommonType st
    = foldl (keepGreater (λ t, countType t (feedback st))) feature
        (countTypes (feedback st)).*1.
Proof.
  unfold getMostCommonType. apply foldl_ext_in. intros a b Hb.
  rewrite !typeCount_countTypes. unfold keepGreater, count_gt.
  apply elem_of_keys_countTypes in Hb as (f & Hf & Ht).
  assert (countType b (feedback st) ≠ 0) as Hpos.
  { unfold countType. intros Hlen%nil_length_inv.
    eapply filter_nil_not_elem_of; [exact Hlen|exact Ht|exact Hf]. }
  repeat case_decide; try done.
  destruct (Nat.ltb_spec (countType b (feedback st)) (countType a (feedback st))); [lia|done].
Qed.

Lemma countType_pos t (l : list Feedback) :
  countType t l ≠ 0 ↔ ∃ f, f ∈ l ∧ type f = t.
Proof.
  unfold countType. split.
  - intros Hlen. destruct (filter _ l) as [|f k] eqn:Hf; [done|].
    exists f. apply and_comm, (list_elem_of_filter (λ f, type f = t) l).
    rewrite Hf. apply list_elem_of_here.
  - intros (f & Hf & Ht) Hlen%nil_length_inv.
    eapply filter_nil_not_elem_of; [exact Hlen|exact Ht|exact Hf].
Qed.

Lemma firstSeen_split t (l1 l2 : list Feedback) f :
  type f = t → (∀ g, g ∈ l1 → type g ≠ t) →
  firstSeen t (l1 ++ f :: l2) = Some (length l1).
Proof.
  intros Ht Hl1. unfold firstSeen.
  assert (list_find (λ f, type f = t) (l1 ++ f :: l2) = Some (length l1, f)) as ->;
    [|done].
  apply list_find_Some. split_and!; [by rewrite list_lookup_middle|done|].
  intros j g Hj Hlt. apply Hl1.
  rewrite lookup_app_l in Hj by done. by eapply list_elem_of_lookup_2.
Qed.

Lemma firstSeen_before t (l1 l2 : list Feedback) g :
  g ∈ l1 → type g = t →
  ∃ i, firstSeen t (l1 ++ l2) = Some i ∧ i < length l1.
Proof.
  intros Hg Ht. unfold firstSeen.
  destruct (list_find_elem_of (λ f, type f = t) l1 g Hg Ht) as [[i x] Hfind].
  exists i. rewrite (list_find_app_l _ _ _ _ _ Hfind). split; [done|].
  apply list_find_Some in Hfind as (Hi & _). by eapply lookup_lt_Some.
Qed.

(** C9, as the claim states it: among the types with the greatest count the
    first one encountered is selected.  It fails on a store whose newest
    record is of type [other] and whose older record is of type [bug]:
    the reduce meets [other] first, both counts are 1, and [bug] is
    selected. *)
Lemma tie_goes_to_type_seen_later :
  let st := (serve (H := sampleValidator)
               [Create sampleBody 1000 1000; Create thirdBody 2000 2000]
               initialStore).2 in
  (type <$> feedback st) = [other; bug] ∧
  getMostCommonType st = bug ∧
  countType other (feedback st) = countType bug (feedback st) ∧
  firstSeen other (feedback st) = Some 0 ∧
  firstSeen bug (feedback st) = Some 1 ∧
  ¬ tieGoesToFirstSeen st.
Proof.
  intros st. split_and!; [done..|].
  intros Htie. specialize (Htie other 0 1 eq_refl eq_refl eq_refl). lia.
Qed.

(** C9, amended: the selected type has the greatest number of records; it
    is [feature] on the empty store; on a store with records every other
    type with as many records is first encountered before the selected
    one, so among the types that tie the one encountered last wins. *)
Theorem most_common_type_last_of_ties st :
  let l := feedback st in
  let t := getMostCommonType st in
  (∀ t', countType t' l ≤ countType t l) ∧
  (l = [] → t = feature) ∧
  (∀ t', l ≠ [] → t' ≠ t → countType t' l = countType t l →
     ∃ i j, firstSeen t' l = Some i ∧ firstSeen t l = Some j ∧ i < j).
Proof.
  intros l t. unfold t. rewrite getMostCommonType_keepGreater. fold l.
  clear t. clearbody l.
  set (c := λ t, countType t l).
  destruct (foldl_keepGreater c feature (countTypes l).*1) as (_ & Hall & Hlast).
  set (r := foldl (keepGreater c) feature (countTypes l).*1) in *.
  assert (∀ t', c t' ≠ 0 → t' ∈ (countTypes l).*1) as Hkey.
  { intros t' Ht'. by apply elem_of_keys_countTypes, countType_pos. }
  split_and!.
  - intros t'. destruct (decide (c t' = 0)) as [Hz|Hnz].
    + unfold c in Hz. rewrite Hz. lia.
    + by apply Hall, Hkey.
  - intros Hl. unfold r. by rewrite Hl.
  - intros t' Hl Hne Hcount. fold (c t') (c r) in Hcount.
    assert (∃ f0, f0 ∈ l) as [f0 Hf0in].
    { destruct l as [|f0 l0]; [done|]. exists f0. apply list_elem_of_here. }
    assert (c (type f0) ≠ 0) as Hf0.
    { apply countType_pos. by exists f0. }
    destruct Hlast as [[Hr Hsmall]|(K1 & K2 & Hkeys & Hsmall)].
    { pose proof (Hsmall (type f0) (Hkey _ Hf0)) as Hlt.
      assert (c feature ≠ 0) as Hfeat by lia.
      pose proof (Hsmall feature (Hkey _ Hfeat)). lia. }
    assert (c r ≠ 0) as Hr.
    { pose proof (Hall (type f0) (Hkey _ Hf0)). lia. }
    assert (t' ∈ K1) as Hin.
    { assert (t' ∈ (countTypes l).*1) as Ht' by (apply Hkey; lia).
      rewrite Hkeys in Ht'.
      apply elem_of_app in Ht' as [?|[?|Ht']%elem_of_cons]; [done|done|].
      apply Hsmall in Ht'. lia. }
    destruct (keys_countTypes_order l K1 r K2 Hkeys)
      as (l1 & f & l2 & Hsplit & Hf & Hl1 & HK1).
    destruct (HK1 t' Hin) as (g & Hg & Hgt).
    destruct (firstSeen_before t' l1 (f :: l2) g Hg Hgt) as (i & Hi & Hlt).
    exists i, (length l1). rewrite Hsplit.
    split_and!; [done|by apply firstSeen_split|done].
Qed.

(** A store with one record of type [other] before one of type [bug]. *)
Lemma most_common_type_last_of_ties_witness :
  let st := (serve (H := sampleValidator)
               [Create sampleBody 1000 1000; Create thirdBody 2000 2000]
               initialStore).2 in
  getMostCommonType st = bug ∧
  ∃ i j, firstSeen other (feedback st) = Some i ∧
         firstSeen (getMostCommonType st) (feedback st) = Some j ∧ i < j.
Proof.
  intros st. split; [reflexivity|].
  destruct (most_common_type_last_of_ties st) as (_ & _ & Hties).
  apply (Hties other); [discriminate|discriminate|reflexivity].
Defined.

(** * Further properties of the handlers *)

(** ** The ids in the store *)

Lemma StronglySorted_delete {A} (R : relation A) (l : list A) k :
  StronglySorted R l → StronglySorted R (delete k l).
Proof.
  intros Hl. revert k. induction Hl as [|x l Hl IH Hx]; intros k;
    [destruct k; constructor|].
  destruct k as [|k]; simpl; [done|].
  constructor; [apply IH|]. by apply Forall_delete.
Qed.

Lemma idsOrdered_initial : idsOrdered initialStore.
Proof. split_and!; [constructor|constructor|done]. Qed.

Lemma handle_idsOrdered `{Validator} r st :
  idsOrdered st → idsOrdered (handle r st).2.
Proof.
  intros (Hsorted & Hbound & Hctr).
  destruct r as [b t1 t2|i body now|i]; simpl.
  - destruct (createFeedback_cases b t1 t2 st) as [(f & -> & Hid & _)|(e & ->)];
      [|done].
    unfold idsOrdered. simpl. rewrite Hid. split_and!; [|constructor; [lia|]|lia].
    + constructor; [done|]. eapply list.Forall_impl; [exact Hbound|].
      intros x ?. simpl in *. lia.
    + eapply list.Forall_impl; [exact Hbound|]. intros x ?. simpl in *. lia.
  - unfold idsOrdered. rewrite updateFeedback_ids.
    unfold updateFeedback.
    destruct (findIndex i (feedback st)) as [[idx old]|]; [|done].
    by destruct (collectUpdates body).
  - unfold idsOrdered, deleteFeedback.
    destruct (findIndex i (feedback st)) as [[idx old]|]; [|done].
    simpl. rewrite list_fmap_delete.
    split_and!; [by apply StronglySorted_delete|by apply Forall_delete|done].
Qed.

(** X1: in every store the server can reach the ids fall strictly from the
    head of the array on, so no two records share an id, and every id lies
    between 1 and the counter (exclusive). *)
Theorem reachable_ids_ordered `{Validator} st :
  reachable st →
  idsOrdered st ∧ NoDup (id <$> feedback st) ∧
  ∀ f, f ∈ feedback st → (1 ≤ id f < feedbackIdCounter st)%Z.
Proof.
  intros Hst.
  assert (idsOrdered st) as Hinv.
  { induction Hst as [|r st _ IH]; [apply idsOrdered_initial|by apply handle_idsOrdered]. }
  split; [done|]. destruct Hinv as (Hsorted & Hbound & _). split.
  - clear Hbound. induction Hsorted as [|x l _ IH Hx]; [constructor|].
    apply NoDup_cons. split; [|done].
    intros Hin. apply (proj1 (list.Forall_forall _ _) Hx) in Hin. lia.
  - intros f Hf. apply (proj1 (list.Forall_forall _ _) Hbound).
    by apply list_elem_of_fmap_2.
Qed.

Lemma reachable_ids_ordered_witness :
  let st := (serve (H := sampleValidator)
               [Create sampleBody 1000 1000; Create otherBody 2000 2000;
                Create thirdBody 3000 3000; Delete 2] initialStore).2 in
  (id <$> feedback st) = [3; 1]%Z ∧ NoDup (id <$> feedback st).
Proof.
  intros st. split; [reflexivity|].
  apply (reachable_ids_ordered (H := sampleValidator) st).
  apply (serve_reachable (H := sampleValidator)), reachable_initial.
Defined.

Lemma handle_counter `{Validator} r st :
  (∃ f, (handle r st).1 = Created f ∧ id f = feedbackIdCounter st ∧
        feedbackIdCounter (handle r st).2 = (feedbackIdCounter st + 1)%Z) ∨
  (createdId (handle r st).1 = None ∧
   feedbackIdCounter (handle r st).2 = feedbackIdCounter st).
Proof.
  destruct r as [b t1 t2|i body now|i]; simpl.
  - destruct (createFeedback_cases b t1 t2 st) as [(f & -> & Hid & _)|(e & ->)];
      [left; by exists f|by right].
  - right. unfold updateFeedback.
    destruct (findIndex i (feedback st)) as [[idx old]|]; [|done].
    by destruct (collectUpdates body).
  - right. unfold deleteFeedback.
    by destruct (findIndex i (feedback st)) as [[idx old]|].
Qed.

(** X2: whatever requests are served, from whatever store, the ids handed
    out count up from the counter without a gap, and the counter ends that
    many higher: an update or a delete neither consumes an id nor frees
    one for reuse. *)
Theorem created_ids_count_up `{Validator} (rs : list Request) st :
  let run := serve rs st in
  let n := Z.of_nat (length (createdIds run.1)) in
  createdIds run.1 = seqZ (feedbackIdCounter st) n ∧
  feedbackIdCounter run.2 = (feedbackIdCounter st + n)%Z.
Proof.
  revert st. induction rs as [|r rs IH]; intros st.
  { unfold createdIds. simpl. split; [done|lia]. }
  simpl. specialize (IH (handle r st).2).
  destruct (handle_counter r st) as [(f & Hresp & Hid & Hctr)|[Hresp Hctr]];
    destruct (handle r st) as [resp st']; simpl in *;
    destruct (serve rs st') as [resps st'']; simpl in *;
    destruct IH as [IH1 IH2]; unfold createdIds in *; simpl; rewrite Hresp; simpl.
  - rewrite Hid. split; [|lia].
    rewrite (seqZ_cons (feedbackIdCounter st)) by lia. f_equal.
    etrans; [exact IH1|]. f_equal; lia.
  - split; [|lia]. etrans; [exact IH1|]. f_equal; lia.
Qed.

(** ** Looking a record up *)

Lemma getFeedback_Some_elem i st f :
  getFeedback i st = Some f → f ∈ feedback st ∧ id f = i.
Proof.
  unfold getFeedback. destruct (list_find _ _) as [[k g]|] eqn:Hfind; [|done].
  intros [= ->]. apply list_find_Some in Hfind as (Hk & Hid & _).
  split; [by eapply list_elem_of_lookup_2|done].
Qed.

Lemma getFeedback_None i st :
  getFeedback i st = None ↔ ∀ f, f ∈ feedback st → id f ≠ i.
Proof.
  unfold getFeedback. rewrite fmap_None, list_find_None, list.Forall_forall. done.
Qed.

(** With ids that differ, the record an id finds is the only record of
    the store with this id. *)
Lemma getFeedback_unique i (l : list Feedback) n f :
  NoDup (id <$> l) → f ∈ l → id f = i →
  getFeedback i (mkStore l n) = Some f.
Proof.
  intros Hnd Hf Hid. unfold getFeedback. simpl.
  destruct (list_find_elem_of (λ item, id item = i) l f Hf Hid) as [[k g] Hfind].
  rewrite Hfind. simpl. f_equal.
  apply list_find_Some in Hfind as (Hk & Hg & _).
  apply (NoDup_fmap_eq id l); [done|by eapply list_elem_of_lookup_2|done|congruence].
Qed.

Lemma idsOrdered_NoDup st : idsOrdered st → NoDup (id <$> feedback st).
Proof.
  intros (Hsorted & _ & _).
  induction Hsorted as [|x l _ IH Hx]; [constructor|].
  apply NoDup_cons. split; [|done].
  intros Hin. apply (proj1 (list.Forall_forall _ _) Hx) in Hin. lia.
Qed.

(** X3: a successful create on a store with ordered ids hands out an id
    that found nothing before, finds the new record afterwards, and
    changes what no other id finds. *)
Theorem create_then_get `{Validator} b t1 t2 st f st' :
  idsOrdered st → createFeedback b t1 t2 st = (Created f, st') →
  getFeedback (id f) st = None ∧
  getFeedback (id f) st' = Some f ∧
  ∀ j, j ≠ id f → getFeedback j st' = getFeedback j st.
Proof.
  intros (_ & Hbound & _) Hc.
  destruct (createFeedback_cases b t1 t2 st) as [(f' & Hc' & Hid & _)|(e & Hc')];
    rewrite Hc' in Hc; [|done].
  injection Hc as <- <-. split_and!.
  - apply getFeedback_None. intros g Hg Heq.
    assert (1 ≤ id g < feedbackIdCounter st)%Z; [|lia].
    apply (proj1 (list.Forall_forall _ _) Hbound). by apply list_elem_of_fmap_2.
  - unfold getFeedback. simpl. by rewrite decide_True.
  - intros j Hj. unfold getFeedback. simpl. rewrite decide_False by done.
    by destruct (list_find _ (feedback st)) as [[k g]|].
Qed.

Lemma create_then_get_witness :
  let st := (createFeedback (H := sampleValidator) sampleBody 1000 1000 initialStore).2 in
  let new := mkFeedback 2 "Dark mode" "Please add a dark theme" feature "low"
               "dev@example.com" "pending" 2000 2001 in
  getFeedback 2 st = None ∧
  getFeedback 2 (createFeedback (H := sampleValidator) otherBody 2000 2001 st).2
    = Some new.
Proof.
  intros st new.
  destruct (create_then_get (H := sampleValidator) otherBody 2000 2001 st new
              (createFeedback (H := sampleValidator) otherBody 2000 2001 st).2)
    as (Hbefore & Hafter & _).
  - by_decide.
  - reflexivity.
  - split; [exact Hbefore|exact Hafter].
Defined.

Lemma elem_of_delete_NoDup (l : list Feedback) idx f g :
  NoDup (id <$> l) → l !! idx = Some f →
  g ∈ delete idx l ↔ g ∈ l ∧ id g ≠ id f.
Proof.
  intros Hnd Hidx.
  pose proof (take_drop_middle l idx f Hidx) as Hl.
  rewrite delete_take_drop.
  remember (take idx l) as l1 eqn:E1. remember (drop (S idx) l) as l2 eqn:E2.
  clear E1 E2 Hidx. subst l.
  rewrite fmap_app, fmap_cons in Hnd.
  apply NoDup_app in Hnd as (_ & Hcross & Hright).
  apply NoDup_cons in Hright as [Hf _].
  rewrite !elem_of_app, elem_of_cons. split.
  - intros [Hg|Hg]; (split; [by auto|]); intros Heq.
    + apply (Hcross (id g)); [by apply list_elem_of_fmap_2|].
      rewrite Heq. apply list_elem_of_here.
    + apply Hf. rewrite <-Heq. by apply list_elem_of_fmap_2.
  - intros [[Hg|[->|Hg]] Hne]; [by left|done|by right].
Qed.

(** X4: on a store with ordered ids, deleting an id that finds a record
    answers with that record and removes it alone: the id finds nothing
    afterwards, a second delete is answered NotFound, every other id finds
    what it found before, and the array is one shorter. *)
Theorem delete_then_gone i st f :
  idsOrdered st → getFeedback i st = Some f →
  let st' := (deleteFeedback i st).2 in
  (deleteFeedback i st).1 = Deleted f ∧
  getFeedback i st' = None ∧
  deleteFeedback i st' = (NotFound, st') ∧
  (∀ j, j ≠ i → getFeedback j st' = getFeedback j st) ∧
  S (length (feedback st')) = length (feedback st).
Proof.
  intros Hinv Hget. pose proof (idsOrdered_NoDup st Hinv) as Hnd.
  unfold getFeedback in Hget. unfold deleteFeedback, findIndex.
  destruct (list_find _ (feedback st)) as [[idx old]|] eqn:Hfind; [|done].
  injection Hget as ->. simpl.
  apply list_find_Some in Hfind as (Hidx & Hid & _).
  assert (getFeedback i (mkStore (delete idx (feedback st)) (feedbackIdCounter st)) = None)
    as Hgone.
  { apply getFeedback_None. simpl. intros g Hg.
    apply (elem_of_delete_NoDup _ _ f) in Hg as [_ Hne]; [congruence|done..]. }
  split_and!.
  - done.
  - done.
  - unfold getFeedback in Hgone. simpl in Hgone.
    by destruct (list_find _ (delete idx (feedback st))).
  - intros j Hj.
    assert (NoDup (id <$> delete idx (feedback st))) as Hnd'.
    { rewrite list_fmap_delete. eapply sublist_NoDup; [exact Hnd|apply sublist_delete]. }
    destruct (getFeedback j st) as [g|] eqn:Hg.
    + apply getFeedback_Some_elem in Hg as [Hg Hgid].
      apply getFeedback_unique; [done| |done].
      apply (elem_of_delete_NoDup _ _ f); [done..|]. split; [done|congruence].
    + apply getFeedback_None. simpl. intros g' Hg'.
      apply (elem_of_delete_NoDup _ _ f) in Hg' as [Hg' _]; [|done..].
      by apply (proj1 (getFeedback_None j st) Hg).
  - rewrite length_delete by (by eexists).
    pose proof (lookup_lt_Some _ _ _ Hidx). lia.
Qed.

Lemma delete_then_gone_witness :
  let st := (serve (H := sampleValidator)
               [Create sampleBody 1000 1000; Create otherBody 2000 2001]
               initialStore).2 in
  (deleteFeedback 1 st).1
    = Deleted (mkFeedback 1 "Login broken" "Click does nothing" bug "high"
                 "user@example.com" "pending" 1000 1000) ∧
  (deleteFeedback 1 (deleteFeedback 1 st).2).1 = NotFound.
Proof.
  intros st.
  destruct (delete_then_gone 1 st
              (mkFeedback 1 "Login broken" "Click does nothing" bug "high"
                 "user@example.com" "pending" 1000 1000))
    as (Hresp & _ & Hagain & _).
  - by_decide.
  - reflexivity.
  - split; [exact Hresp|]. by rewrite Hagain.
Defined.

(** ** Updates in general *)

Lemma lastValue_snoc key (body : list (string * Json)) kv :
  lastValue key (body ++ [kv]) =
    if decide (kv.1 = key) then Some kv.2 else lastValue key body.
Proof.
  unfold lastValue. rewrite list.filter_app, filter_cons, filter_nil.
  case_decide; [by rewrite last_snoc|by rewrite app_nil_r].
Qed.

Lemma foldl_assignField_values old updates :
  status (foldl assignField old updates)
    = default (status old) (lastValue "status" updates) ∧
  priority (foldl assignField old updates)
    = default (priority old) (lastValue "priority" updates).
Proof.
  induction updates as [|kv updates IH] using rev_ind; [done|].
  rewrite foldl_app, !lastValue_snoc. simpl. destruct IH as [IHs IHp].
  unfold assignField. repeat case_decide; simpl; try done; congruence.
Qed.

Lemma lastValue_collectUpdates key body :
  key ∈ allowedUpdates → lastValue key (collectUpdates body) = lastValue key body.
Proof.
  intros Hkey. unfold lastValue, collectUpdates. rewrite list_filter_filter.
  do 2 f_equal. apply list_filter_iff. intros kv. split; [tauto|].
  intros ->. done.
Qed.

Lemma findIndex_insert i (l : list Feedback) idx old new :
  findIndex i l = Some (idx, old) → id new = i →
  findIndex i (<[idx := new]> l) = Some (idx, new).
Proof.
  intros (Hidx & _ & Hfirst)%findIndex_Some Hnew. unfold findIndex.
  apply list_find_Some. split_and!.
  - apply list_lookup_insert_eq. by eapply lookup_lt_Some.
  - done.
  - intros j g Hj Hlt. rewrite list_lookup_insert_ne in Hj by lia.
    by apply (Hfirst j).
Qed.

(** X5: a successful update of whatever body replaces the record found by
    one that keeps id, title, description, type, email and createdAt,
    carries the clock read in updatedAt, takes status and priority from
    the last entry of the body for each key, or from the old record when
    the body has no such entry, and is what the id finds afterwards. *)
Theorem update_frame_general i body now st idx old :
  findIndex i (feedback st) = Some (idx, old) → collectUpdates body ≠ [] →
  let new := mkFeedback (id old) (title old) (description old) (type old)
               (default (priority old) (lastValue "priority" body)) (email old)
               (default (status old) (lastValue "status" body)) (createdAt old) now in
  updateFeedback i body now st
    = (Updated new, mkStore (<[idx := new]> (feedback st)) (feedbackIdCounter st)) ∧
  getFeedback i (updateFeedback i body now st).2 = Some new.
Proof.
  intros Hfind Hupd new.
  assert (mergeUpdates old (collectUpdates body) now = new) as Hnew.
  { unfold mergeUpdates, new.
    destruct (foldl_assignField_frame old (collectUpdates body))
      as (-> & -> & -> & -> & -> & ->).
    destruct (foldl_assignField_values old (collectUpdates body)) as [-> ->].
    rewrite !lastValue_collectUpdates by by_decide. done. }
  assert (updateFeedback i body now st
          = (Updated new, mkStore (<[idx := new]> (feedback st)) (feedbackIdCounter st)))
    as Hupdate.
  { unfold updateFeedback. rewrite Hfind.
    destruct (collectUpdates body) as [|kv updates] eqn:E; [done|]. by rewrite Hnew. }
  split; [done|]. rewrite Hupdate. unfold getFeedback. simpl.
  assert (id new = i) as Hid by (by apply findIndex_Some in Hfind as (_ & ? & _)).
  pose proof (findIndex_insert i _ idx old new Hfind Hid) as Hfind'.
  unfold findIndex in Hfind'. by rewrite Hfind'.
Qed.

Lemma update_frame_general_witness :
  let st := (createFeedback (H := sampleValidator) otherBody 1000 1001 initialStore).2 in
  let body : list (string * Json) :=
    [("status", "reviewed"); ("title", "x"); ("status", "resolved")] in
  getFeedback 1 (updateFeedback 1 body 2000 st).2
    = Some (mkFeedback 1 "Dark mode" "Please add a dark theme" feature "low"
              "dev@example.com" "resolved" 1000 2000).
Proof.
  intros st body.
  refine (proj2 (update_frame_general 1 body 2000 st 0
                   (mkFeedback 1 "Dark mode" "Please add a dark theme" feature "low"
                      "dev@example.com" "pending" 1000 1001) eq_refl _)).
  discriminate.
Defined.

(** ** Validation and what a create stores *)

Section Validation.
Context `{Validator}.

Lemma validationErrors_nil_iff b :
  validationErrors b = [] ↔
    isLength 1 200 (body_title b) = true ∧
    isLength 1 2000 (body_description b) = true ∧
    isIn typeNames (body_type b) = true ∧
    isIn priorityNames (body_priority b) = true ∧
    isEmail (body_email b) = true.
Proof.
  unfold validationErrors.
  destruct (isLength 1 200 _), (isLength 1 2000 _), (isIn typeNames _),
    (isIn priorityNames _), (isEmail _); simpl;
    (split; [intros ?|intros (? & ? & ? & ? & ?)]; simplify_eq; by repeat split).
Qed.

Lemma type_of_name_isIn s :
  isIn typeNames s = true → ∃ ty, type_of_name s = Some ty ∧ type_name ty = s.
Proof.
  intros Hin%bool_decide_eq_true. unfold type_of_name.
  apply list_elem_of_In in Hin. simpl in Hin.
  destruct Hin as [<-|[<-|[<-|[<-|[]]]]]; eauto.
Qed.

(** X6: a create succeeds exactly when the five checks pass on the body
    with title and description trimmed by the sanitizer.  It then stores,
    at the head of the array and under the current counter, the title and
    the description as the sanitizer left them and trimmed once more, the
    type and priority as sent, the email put in lower case and then
    trimmed, the status pending and the two clock reads; otherwise it
    reports at least one violation and leaves array and counter alone. *)
Theorem create_succeeds_iff b t1 t2 st :
  if isLength 1 200 (trimSanitizer (body_title b))
     && isLength 1 2000 (trimSanitizer (body_description b))
     && isIn typeNames (body_type b) && isIn priorityNames (body_priority b)
     && isEmail (body_email b)
  then ∃ ty, type_name ty = body_type b ∧
         let f := mkFeedback (feedbackIdCounter st)
                    (trim (trimSanitizer (body_title b)))
                    (trim (trimSanitizer (body_description b))) ty (body_priority b)
                    (trim (toLowerCase (body_email b))) "pending" t1 t2 in
         createFeedback b t1 t2 st
           = (Created f, mkStore (f :: feedback st) (feedbackIdCounter st + 1))
  else ∃ errors, errors ≠ [] ∧
         createFeedback b t1 t2 st = (ValidationFailed errors, st).
Proof.
  pose proof (validationErrors_nil_iff (sanitize b)) as Hnil. simpl in Hnil.
  unfold createFeedback.
  destruct (validationErrors (sanitize b)) as [|e errors] eqn:Herr.
  - destruct (proj1 Hnil eq_refl) as (-> & -> & Hty & -> & ->). rewrite Hty. simpl.
    destruct (type_of_name_isIn _ Hty) as (ty & Hsome & Hname).
    exists ty. split; [done|]. simpl. by rewrite Hsome.
  - destruct (_ && _) eqn:Hchecks.
    + rewrite !andb_true_iff in Hchecks. destruct Hchecks as [[[[H1 H2] H3] H4] H5].
      by specialize (proj2 Hnil (conj H1 (conj H2 (conj H3 (conj H4 H5))))).
    + exists (e :: errors). split; [done|].
      by destruct (type_of_name (body_type (sanitize b))).
Qed.
End Validation.

(** A body with white space around the title and capital letters in the
    address. *)
Example create_succeeds_iff_example :
  (createFeedback (H := sampleValidator)
     (mkBody "  Dark mode " " x" "feature" "low" "Dev@Example.COM") 1000 1001
     initialStore).2
    = mkStore [mkFeedback 1 "Dark mode" "x" feature "low" "dev@example.com"
                 "pending" 1000 1001] 2 ∧
  (createFeedback (H := sampleValidator)
     (mkBody "   " "x" "feature" "urgent" "dev@example.com") 1000 1001 initialStore)
    = (ValidationFailed ["Title must be 1-200 characters"; "Invalid priority level"],
       initialStore).
Proof. done. Qed.

(** ** Pages *)

(** X9: page 0 is an empty page, whatever the page size, and so is every
    page of size 0, for which the number of pages is not a finite number;
    neither is refused. *)
Theorem page_zero_and_limit_zero `{Validator} st q :
  (q_page q = Some 0%Z → data (listFeedback q st) = []) ∧
  (q_limit q = Some 0%Z →
     data (listFeedback q st) = [] ∧
     totalPages (pagination (listFeedback q st)) = None ∧
     totalItems (pagination (listFeedback q st)) = length (filteredFeedback q st)).
Proof.
  unfold listFeedback. split.
  - intros ->. cbn [data]. rewrite limit_number.
    change (default (Num 1) (toNumber <$> Some 0%Z)) with (Num 0).
    change (numSub (Num 0) (Num 1)) with (Num (-1)).
    pose proof (toNumber_representable (default 10%Z (q_limit q))) as Hrep.
    apply slice_to_zero.
    destruct (toNumber (default 10%Z (q_limit q))) as [v|neg|]; [|by destruct neg|done].
    cbn [numMul]. replace (-1 * v)%Z with (- v)%Z by lia.
    rewrite (toNumber_opp v v Hrep). cbn [numAdd].
    replace (- v + v)%Z with 0%Z by lia.
    change (toNumber 0) with (Num 0). simpl. lia.
  - intros ->. cbn [data pagination totalPages totalItems].
    change (default (Num 10) (toNumber <$> Some 0%Z)) with (Num 0).
    split_and!; [|done..]. apply slice_to_zero.
    destruct (numSub _ _) as [a|neg|]; [|done..].
    cbn [numMul]. rewrite Z.mul_0_r.
    change (toNumber 0) with (Num 0). cbn [numAdd].
    change (toNumber (0 + 0)) with (Num 0). simpl. lia.
Qed.

Lemma page_zero_and_limit_zero_witness :
  let st := (serve (H := sampleValidator)
               [Create sampleBody 1000 1000; Create otherBody 2000 2001]
               initialStore).2 in
  data (listFeedback (H := sampleValidator)
          (mkQuery None None None (Some 0%Z) None None None) st) = [] ∧
  totalPages (pagination
    (listFeedback (H := sampleValidator)
       (mkQuery None None None None (Some 0%Z) None None) st)) = None.
Proof.
  intros st. split.
  - exact (proj1 (page_zero_and_limit_zero (H := sampleValidator) st
                    (mkQuery None None None (Some 0%Z) None None None)) eq_refl).
  - exact (proj1 (proj2 (proj2 (page_zero_and_limit_zero (H := sampleValidator) st
                    (mkQuery None None None None (Some 0%Z) None None)) eq_refl))).
Defined.

Lemma allPages_take `{Validator} q k st :
  let s := default 10%Z (q_limit q) in
  (1 ≤ s)%Z → isFinite (toNumber s) = true →
  (Z.of_nat (length (feedback st)) < 2 ^ 32)%Z →
  allPages q k st = take (k * Z.to_nat s) (filteredFeedback q st).
Proof.
  intros s Hs Hfin Hlen. unfold allPages. induction k as [|k IH]; [done|].
  rewrite seq_S, fmap_app, join_app, IH.
  change (mjoin (?f <$> [?x])) with (f x ++ []). rewrite app_nil_r.
  rewrite (listFeedback_data st (withPage q (Z.of_nat (1 + k))))
    by (done || (simpl; lia)).
  change (filteredFeedback (withPage q _) st) with (filteredFeedback q st).
  change (default 1%Z (q_page (withPage q (Z.of_nat (1 + k))))) with (Z.of_nat (1 + k)).
  change (default 10%Z (q_limit (withPage q (Z.of_nat (1 + k))))) with s.
  replace (Z.to_nat ((Z.of_nat (1 + k) - 1) * s)) with (k * Z.to_nat s) by lia.
  rewrite take_take_drop. f_equal. lia.
Qed.

(** X10: for a page size of at least 1 that is a finite number when read
    as a double, on an array of fewer than 2^32 records, the pages 1 to
    [totalPages] put one after the other are the whole filtered and
    sorted array: every matching record is on exactly one page, in the
    order of the sort. *)
Theorem all_pages_cover `{Validator} st q k :
  (1 ≤ default 10 (q_limit q))%Z →
  isFinite (toNumber (default 10%Z (q_limit q))) = true →
  (Z.of_nat (length (feedback st)) < 2 ^ 32)%Z →
  totalPages (pagination (listFeedback q st)) = Some (Z.of_nat k) →
  allPages q k st = filteredFeedback q st.
Proof.
  intros Hs Hfin Hlen Hpages. rewrite allPages_take by done. apply take_ge.
  destruct (listFeedback_totalPages st q Hs Hfin Hlen) as (k' & Hk' & Hbound).
  rewrite Hpages in Hk'. injection Hk' as <-. nia.
Qed.

Lemma all_pages_cover_witness :
  let st := (serve (H := sampleValidator)
               [Create sampleBody 1000 1000; Create otherBody 2000 2001;
                Create thirdBody 3000 3000] initialStore).2 in
  let q := mkQuery None None None None (Some 2%Z) None None in
  (id <$> allPages (H := sampleValidator) q 2 st) = [3; 2; 1]%Z ∧
  allPages (H := sampleValidator) q 2 st = filteredFeedback (H := sampleValidator) q st.
Proof.
  intros st q. split; [reflexivity|].
  apply (all_pages_cover (H := sampleValidator) st q 2);
    [vm_compute; discriminate|reflexivity..].
Defined.

(** ** The order of a page *)

Lemma StronglySorted_sublist {A} (R : relation A) (l1 l2 : list A) :
  l1 `sublist_of` l2 → StronglySorted R l2 → StronglySorted R l1.
Proof.
  induction 1 as [|x l1 l2 Hsub IH|x l1 l2 Hsub IH]; intros Hl2; [done|..].
  - apply StronglySorted_inv in Hl2 as [Hl2 Hx].
    constructor; [by apply IH|]. apply list.Forall_forall. intros y Hy.
    apply (proj1 (list.Forall_forall _ _) Hx). by eapply elem_of_sublist.
  - apply StronglySorted_inv in Hl2 as [Hl2 _]. by apply IH.
Qed.

Lemma Forall_sublist_of {A} (P : A → Prop) (l1 l2 : list A) :
  l1 `sublist_of` l2 → Forall P l2 → Forall P l1.
Proof.
  intros Hsub Hl2. apply list.Forall_forall. intros x Hx.
  apply (proj1 (list.Forall_forall _ _) Hl2). by eapply elem_of_sublist.
Qed.

(** The records that are sorted are records of the store. *)
Lemma filtered_sublist (q : Query) (st : Store) :
  applyFilter (q_priority q) priority
    (applyFilter (q_type q) (λ item, type_name (type item))
       (applyFilter (q_status q) status (feedback st)))
  `sublist_of` feedback st.
Proof. repeat (etrans; [apply applyFilter_sublist|]). done. Qed.



Lemma filteredFeedback_matching `{Validator} q st :
  filteredFeedback q st
    = arraySort (compareFeedback (default "createdAt" (q_sort q))
                   (default "desc" (q_order q)))
        (filter (matchesQuery q) (feedback st)).
Proof.
  unfold filteredFeedback. f_equal.
  rewrite !applyFilter_constraint, !list_filter_filter.
  apply list_filter_iff. intros item. unfold matchesQuery. tauto.
Qed.

(** X12: a sort field that is no property of the records has the same
    value, [undefined], in all of them; the matching records are then
    listed in the reverse of their order in the store, in both directions. *)
Theorem unknown_sort_field_reverses `{Validator} st q name :
  q_sort q = Some name → name ∉ recordFields →
  filteredFeedback q st = reverse (filter (matchesQuery q) (feedback st)).
Proof.
  intros Hsort Hname. rewrite filteredFeedback_matching, Hsort. simpl.
  assert (∀ r, getField r name = VUndefined) as Hundef.
  { intros r. unfold getField.
    repeat (case_decide as Heq;
            [exfalso; apply Hname; rewrite Heq; by_decide|]; clear Heq).
    done. }
  apply arraySort_all_tied.
  - intros a b _ _. by rewrite !Hundef.
  - intros a w _. by rewrite Hundef.
Qed.

Lemma unknown_sort_field_reverses_witness :
  let st := (serve (H := sampleValidator)
               [Create sampleBody 1000 1000; Create otherBody 2000 2000;
                Create thirdBody 3000 3000] initialStore).2 in
  let q := mkQuery None None None None None (Some "date") (Some "desc") in
  (id <$> feedback st) = [3; 2; 1]%Z ∧
  (id <$> filteredFeedback (H := sampleValidator) q st) = [1; 2; 3]%Z.
Proof.
  intros st q. split; [reflexivity|].
  rewrite (unknown_sort_field_reverses (H := sampleValidator) st q "date" eq_refl);
    [reflexivity|].
  by_decide.
Defined.

(** The first page of the request without a query string starts with the
    record the sort puts first. *)
Lemma listFeedback_default_head `{Validator} st :
  head (data (listFeedback defaultQuery st)) = head (filteredFeedback defaultQuery st).
Proof.
  unfold listFeedback. cbn [data].
  generalize (filteredFeedback defaultQuery st). intros l.
  change (numMul _ _) with (Num 0).
  change (numAdd (Num 0) _) with (Num (0 + 10)).
  rewrite (slice_take_drop (Z.of_nat (length l)) l 0 10)
    by (done || apply approximates_exact).
  by destruct l.
Qed.

(** X13: a record created with a clock read later than the creation of
    every record in the store is the first record of the list returned
    for the request without a query string. *)
Theorem newest_is_listed_first `{Validator} b t1 t2 st f st' :
  createFeedback b t1 t2 st = (Created f, st') →
  Forall (λ g, (createdAt g < t1)%Z) (feedback st) →
  head (data (listFeedback defaultQuery st')) = Some f.
Proof.
  intros Hc Hold.
  destruct (createFeedback_cases b t1 t2 st)
    as [(f' & Hc' & _ & _ & _ & Ht1 & _)|(e & Hc')]; rewrite Hc' in Hc; [|done].
  injection Hc as Hf <-. subst f'.
  rewrite listFeedback_default_head.
  pose proof (filteredFeedback_perm defaultQuery
                (mkStore (f :: feedback st) (feedbackIdCounter st + 1))) as Hperm.
  pose proof (arraySort_createdAt_desc (f :: feedback st)) as Hsorted.
  change (arraySort _ _) with
    (filteredFeedback defaultQuery
       (mkStore (f :: feedback st) (feedbackIdCounter st + 1))) in Hsorted.
  rewrite (filter_all (matchesQuery defaultQuery)) in Hperm
    by (apply list.Forall_forall; intros g _; repeat split; by left).
  cbn [feedback] in Hperm.
  destruct (filteredFeedback _ _) as [|h rest].
  { by apply Permutation_nil_cons in Hperm. }
  simpl. f_equal.
  apply StronglySorted_inv in Hsorted as [_ Hh].
  assert (h ∈ f :: feedback st) as Hin by (rewrite <-Hperm; apply list_elem_of_here).
  apply elem_of_cons in Hin as [?|Hin]; [done|].
  assert (f ∈ h :: rest) as Hf by (rewrite Hperm; apply list_elem_of_here).
  apply elem_of_cons in Hf as [?|Hf]; [done|].
  apply (proj1 (list.Forall_forall _ _) Hh) in Hf.
  apply (proj1 (list.Forall_forall _ _) Hold) in Hin. simpl in Hf. lia.
Qed.

Lemma newest_is_listed_first_witness :
  let st := (serve (H := sampleValidator)
               [Create sampleBody 1000 1000; Create otherBody 2000 2001]
               initialStore).2 in
  (id <$> head (data (listFeedback (H := sampleValidator) defaultQuery
                        (createFeedback (H := sampleValidator) thirdBody 3000 3000 st).2)))
    = Some 3%Z.
Proof.
  intros st.
  rewrite (newest_is_listed_first (H := sampleValidator) thirdBody 3000 3000 st
             (mkFeedback 3 "Docs" "Typos in the guide" other "medium"
                "writer@example.com" "pending" 3000 3000)
             (createFeedback (H := sampleValidator) thirdBody 3000 3000 st).2).
  - reflexivity.
  - reflexivity.
  - by_decide.
Defined.

(** X14: without an active filter the list counts as many items as the
    store holds, the [total] of its statistics; with a status filter
    alone it counts the records of that status, which for the three
    statuses of the statistics is the counter shown beside the list. *)
Theorem list_counts_agree `{Validator} st q :
  let r := listFeedback q st in
  filterActive (q_type q) = false → filterActive (q_priority q) = false →
  (filterActive (q_status q) = false → totalItems (pagination r) = total (stats r)) ∧
  (∀ v, q_status q = Some v → v ≠ "" → v ≠ "all" →
     totalItems (pagination r) = countStatus v (feedback st) ∧
     (v = "pending" → totalItems (pagination r) = pending (stats r)) ∧
     (v = "reviewed" → totalItems (pagination r) = reviewed (stats r)) ∧
     (v = "resolved" → totalItems (pagination r) = resolved (stats r))).
Proof.
  intros r Hty Hpr.
  assert (length (filteredFeedback q st)
          = length (applyFilter (q_status q) status (feedback st))) as Hlen.
  { unfold filteredFeedback. rewrite arraySort_perm.
    unfold applyFilter at 1 2. by rewrite Hty, Hpr. }
  unfold r, listFeedback. cbn [pagination totalItems stats total pending reviewed resolved].
  rewrite Hlen. split.
  - unfold applyFilter. by intros ->.
  - intros v Hv Hempty Hall. unfold applyFilter, filterActive. rewrite Hv.
    rewrite !bool_decide_eq_false_2 by done. simpl.
    assert (length (filter (λ item, Some (status item) = Some (JString v)) (feedback st))
            = countStatus v (feedback st)) as ->.
    { unfold countStatus. f_equal. apply list_filter_iff. intros item.
      split; [by intros [= ->]|by intros ->]. }
    split_and!; [done|by intros ->..].
Qed.

Lemma list_counts_agree_witness :
  let st := (serve (H := sampleValidator)
               [Create sampleBody 1000 1000; Create otherBody 2000 2001;
                Update 1 [("status", "resolved")] 3000] initialStore).2 in
  let q := mkQuery (Some "resolved") None None None None None None in
  let r := listFeedback (H := sampleValidator) q st in
  totalItems (pagination r) = 1 ∧
  totalItems (pagination r) = resolved (stats r).
Proof.
  intros st q r. split; [reflexivity|].
  destruct (list_counts_agree (H := sampleValidator) st q eq_refl eq_refl) as [_ Hstatus].
  destruct (Hstatus "resolved" eq_refl) as (_ & _ & _ & Hres); [discriminate..|].
  by apply Hres.
Defined.

(** ** How the statistics follow the store *)

Section Counting.
Context {A : Type} (P : A → Prop) `{∀ x, Decision (P x)}.

Lemma count_insert (l : list A) i old new :
  l !! i = Some old →
  length (filter P (<[i := new]> l)) + (if decide (P old) then 1 else 0)
    = length (filter P l) + (if decide (P new) then 1 else 0).
Proof.
  intros Hi. rewrite insert_take_drop by (by eapply lookup_lt_Some).
  rewrite <-(take_drop_middle l i old Hi) at 3.
  rewrite !list.filter_app, !filter_cons, !length_app.
  repeat case_decide; simpl; lia.
Qed.

Lemma count_delete (l : list A) i old :
  l !! i = Some old →
  length (filter P l)
    = length (filter P (delete i l)) + (if decide (P old) then 1 else 0).
Proof.
  intros Hi. rewrite delete_take_drop.
  rewrite <-(take_drop_middle l i old Hi) at 1.
  rewrite !list.filter_app, !filter_cons, !length_app.
  case_decide; simpl; lia.
Qed.

Lemma count_mono (Q : A → Prop) `{∀ x, Decision (Q x)} (l : list A) :
  (∀ x, P x → Q x) → length (filter P l) ≤ length (filter Q l).
Proof.
  intros HPQ. induction l as [|x l IH]; [done|].
  rewrite !filter_cons. repeat case_decide; simpl; try lia. exfalso. auto.
Qed.
End Counting.

(** X15: a successful create raises [total], the count of [pending], the
    count of the type stored and the count of the priority stored by one
    and leaves every other count of the statistics as it was. *)
Theorem create_raises_counts `{Validator} b t1 t2 st f st' :
  createFeedback b t1 t2 st = (Created f, st') →
  stats_total (getFeedbackStats st') = S (stats_total (getFeedbackStats st)) ∧
  (∀ s, countStatus s (feedback st')
        = countStatus s (feedback st) + if decide (s = "pending") then 1 else 0) ∧
  (∀ t, countType t (feedback st')
        = countType t (feedback st) + if decide (type f = t) then 1 else 0) ∧
  (∀ p, countPriority p (feedback st')
        = countPriority p (feedback st) + if decide (priority f = p) then 1 else 0).
Proof.
  intros Hc.
  destruct (createFeedback_cases b t1 t2 st)
    as [(f' & Hc' & _ & Hs & _)|(e & Hc')]; rewrite Hc' in Hc; [|done].
  injection Hc as Hf <-. subst f'. simpl.
  unfold countStatus, countType, countPriority. split_and!; [done|intros x..];
    rewrite filter_cons; rewrite ?Hs; repeat case_decide; simpl; congruence || lia.
Qed.

Lemma create_raises_counts_witness :
  let st := (createFeedback (H := sampleValidator) sampleBody 1000 1000 initialStore).2 in
  let st' := (createFeedback (H := sampleValidator) otherBody 2000 2001 st).2 in
  getFeedbackStats st' =
    mkFeedbackStats 2 (mkByStatus 2 0 0) (mkByType 1 1 0 0) (mkByPriority 1 0 1) ∧
  stats_total (getFeedbackStats st') = S (stats_total (getFeedbackStats st)).
Proof.
  intros st st'. split; [reflexivity|].
  exact (proj1 (create_raises_counts (H := sampleValidator) otherBody 2000 2001 st
                  (mkFeedback 2 "Dark mode" "Please add a dark theme" feature "low"
                     "dev@example.com" "pending" 2000 2001) st' eq_refl)).
Defined.

(** X16: a successful update keeps the length of the array and the count
    of every type; the count of a status, and of a priority, loses the old
    record where it had that value and gains the new record where it has
    it. *)
Theorem update_moves_counts i body now st new st' :
  updateFeedback i body now st = (Updated new, st') →
  ∃ old, getFeedback i st = Some old ∧
    length (feedback st') = length (feedback st) ∧
    (∀ t, countType t (feedback st') = countType t (feedback st)) ∧
    (∀ s, countStatus s (feedback st') + (if decide (status old = s) then 1 else 0)
          = countStatus s (feedback st) + (if decide (status new = s) then 1 else 0)) ∧
    (∀ p, countPriority p (feedback st') + (if decide (priority old = p) then 1 else 0)
          = countPriority p (feedback st) + (if decide (priority new = p) then 1 else 0)).
Proof.
  unfold updateFeedback, getFeedback, findIndex.
  destruct (list_find _ (feedback st)) as [[idx old]|] eqn:Hfind; [|done].
  destruct (collectUpdates body) as [|kv updates]; [done|].
  generalize (kv :: updates). intros u [= <- <-].
  apply list_find_Some in Hfind as (Hidx & _ & _).
  exists old. cbn [feedback fmap option_fmap option_map snd].
  split_and!; [done|apply length_insert|..].
  - intros t. unfold countType.
    pose proof (count_insert (λ f, type f = t) (feedback st) idx old
                  (mergeUpdates old u now) Hidx) as Hcount.
    assert (type (mergeUpdates old u now) = type old) as Hty
      by apply foldl_assignField_frame.
    cbv beta in Hcount. rewrite Hty in Hcount. repeat case_decide; (done || lia).
  - intros s. unfold countStatus.
    pose proof (count_insert (λ f, status f = s) (feedback st) idx old
                  (mergeUpdates old u now) Hidx) as Hcount.
    by cbv beta in Hcount.
  - intros p. unfold countPriority.
    pose proof (count_insert (λ f, priority f = p) (feedback st) idx old
                  (mergeUpdates old u now) Hidx) as Hcount.
    by cbv beta in Hcount.
Qed.

Lemma update_moves_counts_witness :
  let st := (serve (H := sampleValidator)
               [Create sampleBody 1000 1000; Create otherBody 2000 2001]
               initialStore).2 in
  let st' := (updateFeedback 1 [("status", "resolved")] 3000 st).2 in
  stats (listFeedback (H := sampleValidator) defaultQuery st) = mkListStats 2 2 0 0 ∧
  stats (listFeedback (H := sampleValidator) defaultQuery st') = mkListStats 2 1 0 1 ∧
  length (feedback st') = length (feedback st).
Proof.
  intros st st'. split_and!; [reflexivity..|].
  destruct (update_moves_counts 1 [("status", "resolved")] 3000 st
              (mkFeedback 1 "Login broken" "Click does nothing" bug "high"
                 "user@example.com" "resolved" 1000 3000) st' eq_refl)
    as (old & _ & Hlen & _).
  exact Hlen.
Defined.

(** X17: a successful delete shortens the array by one and lowers by one
    the counts of the status, the type and the priority of the record it
    returns, and no other count. *)
Theorem delete_lowers_counts i st f st' :
  deleteFeedback i st = (Deleted f, st') →
  length (feedback st) = S (length (feedback st')) ∧
  (∀ s, countStatus s (feedback st)
        = countStatus s (feedback st') + if decide (status f = s) then 1 else 0) ∧
  (∀ t, countType t (feedback st)
        = countType t (feedback st') + if decide (type f = t) then 1 else 0) ∧
  (∀ p, countPriority p (feedback st)
        = countPriority p (feedback st') + if decide (priority f = p) then 1 else 0).
Proof.
  unfold deleteFeedback, findIndex.
  destruct (list_find _ (feedback st)) as [[idx old]|] eqn:Hfind; [|done].
  intros [= <- <-]. apply list_find_Some in Hfind as (Hidx & _ & _).
  cbn [feedback]. split_and!.
  - rewrite length_delete by (by eexists).
    pose proof (lookup_lt_Some _ _ _ Hidx). lia.
  - intros s. unfold countStatus.
    pose proof (count_delete (λ f, status f = s) (feedback st) idx old Hidx) as Hcount.
    by cbv beta in Hcount.
  - intros t. unfold countType.
    pose proof (count_delete (λ f, type f = t) (feedback st) idx old Hidx) as Hcount.
    by cbv beta in Hcount.
  - intros p. unfold countPriority.
    pose proof (count_delete (λ f, priority f = p) (feedback st) idx old Hidx) as Hcount.
    by cbv beta in Hcount.
Qed.

Lemma delete_lowers_counts_witness :
  let st := (serve (H := sampleValidator)
               [Create sampleBody 1000 1000; Create otherBody 2000 2001]
               initialStore).2 in
  getFeedbackStats (deleteFeedback 1 st).2 =
    mkFeedbackStats 1 (mkByStatus 1 0 0) (mkByType 0 1 0 0) (mkByPriority 1 0 0) ∧
  length (feedback st) = S (length (feedback (deleteFeedback 1 st).2)).
Proof.
  intros st. split; [reflexivity|].
  exact (proj1 (delete_lowers_counts 1 st
                  (mkFeedback 1 "Login broken" "Click does nothing" bug "high"
                     "user@example.com" "pending" 1000 1000)
                  (deleteFeedback 1 st).2 eq_refl)).
Defined.

(** X18: for every array, also one with statuses or priorities outside
    the enumerations, the three counts by status add up to at most
    [total], and so do the three counts by priority: a record is counted
    at most once in each group. *)
Theorem stats_sums_bounded `{Validator} st :
  let s := getFeedbackStats st in
  byStatus_pending (byStatus s) + byStatus_reviewed (byStatus s)
    + byStatus_resolved (byStatus s) ≤ stats_total s ∧
  byPriority_low (byPriority s) + byPriority_medium (byPriority s)
    + byPriority_high (byPriority s) ≤ stats_total s ∧
  pending (stats (listFeedback defaultQuery st))
    + reviewed (stats (listFeedback defaultQuery st))
    + resolved (stats (listFeedback defaultQuery st))
    ≤ total (stats (listFeedback defaultQuery st)).
Proof.
  simpl. unfold countStatus, countPriority.
  induction (feedback st) as [|f l IH]; [simpl; lia|].
  rewrite !filter_cons. destruct IH as (IH1 & IH2 & IH3).
  split_and!; repeat case_decide; simpl; try lia; congruence.
Qed.

(** ** Trends *)

(** X19: the weekly window lies inside the monthly one and the monthly one
    inside the store: weekly counts are at most the monthly counts, the
    monthly total at most the number of records, and in each window the
    resolved records are at most the total.  A window has a lower bound
    only: when no record is older than seven days before [now], both
    windows hold the whole store, records stamped after [now] included. *)
Theorem trends_windows_nest now st :
  let t := calculateTrends now st in
  window_total (weekly t) ≤ window_total (monthly t) ∧
  window_total (monthly t) ≤ length (feedback st) ∧
  window_resolved (weekly t) ≤ window_resolved (monthly t) ∧
  window_resolved (weekly t) ≤ window_total (weekly t) ∧
  window_resolved (monthly t) ≤ window_total (monthly t) ∧
  (Forall (λ f, (now - 604800000 ≤ createdAt f)%Z) (feedback st) →
   weekly t = monthly t ∧
   weekly t = mkTrendWindow (length (feedback st))
                (countStatus "resolved" (feedback st))).
Proof.
  unfold calculateTrends. cbn [weekly monthly window_total window_resolved].
  unfold countStatus. rewrite !list_filter_filter.
  split_and!.
  - apply count_mono. intros f. cbv beta. lia.
  - apply length_filter.
  - apply count_mono. intros f. cbv beta. intros [? ?]. split; [done|lia].
  - apply count_mono. by intros f [_ ?].
  - apply count_mono. by intros f [_ ?].
  - intros Hrecent.
    assert (∀ (lo : Z), (lo ≤ now - 604800000)%Z →
              filter (λ f, (lo ≤ createdAt f)%Z) (feedback st) = feedback st) as Hall.
    { intros lo Hlo. apply filter_all. eapply list.Forall_impl; [exact Hrecent|].
      intros f ?. simpl in *. lia. }
    assert (∀ (lo : Z), (lo ≤ now - 604800000)%Z →
              filter (λ f, status f = "resolved" ∧ (lo ≤ createdAt f)%Z) (feedback st)
              = filter (λ f, status f = "resolved") (feedback st)) as Hres.
    { intros lo Hlo. rewrite <-list_filter_filter. by rewrite Hall. }
    rewrite !Hall, !Hres by lia. done.
Qed.

Lemma trends_windows_nest_witness :
  let st := (serve (H := sampleValidator)
               [Create sampleBody 1000000000 1000000000;
                Create otherBody 3000000000 3000000000;
                Update 2 [("status", "resolved")] 3000000001] initialStore).2 in
  calculateTrends 3000000002 st
    = mkTrends (mkTrendWindow 1 1) (mkTrendWindow 2 1) ∧
  weekly (calculateTrends 1000000000 st) = mkTrendWindow 2 1.
Proof.
  intros st. split; [reflexivity|].
  destruct (trends_windows_nest 1000000000 st) as (_ & _ & _ & _ & _ & Hall).
  destruct Hall as [_ Hweek]; [by_decide|]. exact Hweek.
Defined.

(** X20: a record just created is counted by the weekly and the monthly
    total as soon as its stamp is not older than the window, and never as
    resolved. *)
Theorem create_enters_trends `{Validator} b t1 t2 st f st' now :
  createFeedback b t1 t2 st = (Created f, st') →
  (now - 604800000 ≤ t1)%Z →
  let t := calculateTrends now st in
  let t' := calculateTrends now st' in
  window_total (weekly t') = S (window_total (weekly t)) ∧
  window_total (monthly t') = S (window_total (monthly t)) ∧
  window_resolved (weekly t') = window_resolved (weekly t) ∧
  window_resolved (monthly t') = window_resolved (monthly t).
Proof.
  intros Hc Hrecent.
  destruct (createFeedback_cases b t1 t2 st)
    as [(f' & Hc' & _ & Hs & _ & Ht1 & _)|(e & Hc')]; rewrite Hc' in Hc; [|done].
  injection Hc as Hf <-. subst f'.
  unfold calculateTrends. cbn [weekly monthly window_total window_resolved feedback].
  unfold countStatus. rewrite !filter_cons, Ht1.
  rewrite !decide_True by lia. rewrite !filter_cons, Hs.
  rewrite !decide_False by done. done.
Qed.

Lemma create_enters_trends_witness :
  let st := (createFeedback (H := sampleValidator) sampleBody 1000 1000 initialStore).2 in
  let st' := (createFeedback (H := sampleValidator) otherBody 900000000 900000000 st).2 in
  calculateTrends 900000001 st = mkTrends (mkTrendWindow 0 0) (mkTrendWindow 1 0) ∧
  window_total (weekly (calculateTrends 900000001 st')) = 1.
Proof.
  intros st st'. split; [reflexivity|].
  destruct (create_enters_trends (H := sampleValidator) otherBody 900000000 900000000 st
              (mkFeedback 2 "Dark mode" "Please add a dark theme" feature "low"
                 "dev@example.com" "pending" 900000000 900000000) st' 900000001
              eq_refl) as (Hweek & _); [vm_compute; discriminate|].
  exact Hweek.
Defined.

(** ** Types under updates *)

Lemma countTypes_types (l : list Feedback) :
  countTypes l = foldl (λ acc t, increment t acc) [] (type <$> l).
Proof.
  unfold countTypes. generalize ([] : TypeCounts).
  induction l as [|f l IH]; intros acc; [done|]. simpl. apply IH.
Qed.

Lemma updateFeedback_types i body now st :
  type <$> feedback (updateFeedback i body now st).2 = type <$> feedback st.
Proof.
  unfold updateFeedback.
  destruct (findIndex i (feedback st)) as [[idx old]|] eqn:Hfind; [|done].
  destruct (collectUpdates body) as [|kv updates]; [done|].
  generalize (kv :: updates). intros u. cbn [snd feedback].
  rewrite list_fmap_insert.
  apply findIndex_Some in Hfind as (Hidx & _ & _).
  apply list_insert_id. rewrite list_lookup_fmap, Hidx. simpl. f_equal.
  symmetry. apply foldl_assignField_frame.
Qed.

(** X21: no update, whatever its body, changes the most common type or a
    count by type: the type of a record is not among the fields an update
    writes. *)
Theorem update_keeps_types i body now st :
  let st' := (updateFeedback i body now st).2 in
  getMostCommonType st' = getMostCommonType st ∧
  byType (getFeedbackStats st') = byType (getFeedbackStats st).
Proof.
  intros st'. pose proof (updateFeedback_types i body now st) as Htypes.
  fold st' in Htypes. split.
  - unfold getMostCommonType. by rewrite !countTypes_types, Htypes.
  - assert (∀ t, countType t (feedback st') = countType t (feedback st)) as Hcount.
    { intros t. unfold countType.
      assert (∀ l : list Feedback,
                length (filter (λ f, type f = t) l)
                = length (filter (λ x, x = t) (type <$> l))) as Hfmap.
      { induction l as [|f l IH]; [done|].
        rewrite fmap_cons, !filter_cons. case_decide; simpl; by rewrite IH. }
      by rewrite !Hfmap, Htypes. }
    unfold getFeedbackStats. cbn [byType]. by rewrite !Hcount.
Qed.

(** ** Ids that find nothing *)

(** X22: an id that no record of the store has is answered NotFound by
    the update handler, whatever the body, and by the delete handler, and
    the store stays as it is; on a store with ordered ids this is so for
    every id below 1 and every id from the counter on, the ids not handed
    out yet. *)
Theorem unknown_id_not_found i st :
  (getFeedback i st = None →
   (∀ body now, updateFeedback i body now st = (NotFound, st)) ∧
   deleteFeedback i st = (NotFound, st)) ∧
  (idsOrdered st → (i < 1 ∨ feedbackIdCounter st ≤ i)%Z → getFeedback i st = None).
Proof.
  split.
  - unfold getFeedback, updateFeedback, deleteFeedback, findIndex.
    by destruct (list_find _ (feedback st)) as [[idx old]|].
  - intros (_ & Hbound & _) Hi. apply getFeedback_None. intros f Hf Hid.
    assert (1 ≤ id f < feedbackIdCounter st)%Z; [|lia].
    apply (proj1 (list.Forall_forall _ _) Hbound). by apply list_elem_of_fmap_2.
Qed.

Lemma unknown_id_not_found_witness :
  let st := (serve (H := sampleValidator)
               [Create sampleBody 1000 1000; Create otherBody 2000 2001; Delete 2]
               initialStore).2 in
  getFeedback 3 st = None ∧
  updateFeedback 2 [("status", "resolved")] 3000 st = (NotFound, st).
Proof.
  intros st. split.
  - apply (proj2 (unknown_id_not_found 3 st)); [by_decide|right; reflexivity].
  - apply (proj1 (unknown_id_not_found 2 st)). reflexivity.
Defined.

(** ** Both directions *)


